(** * TheiaSfM front end: two-view geometry estimation and the feature pipeline

    A shallow embedding of
      - [theia/sfm/estimate_twoview_info.cc]
      - [theia/sfm/feature_extractor_and_matcher.cc]
    C++ [double] and [float] values are IEEE binary64 primitive floats,
    [int] values are [Z] with the 32-bit conversions written out,
    [std::vector] is [list], [std::unordered_map<std::string, _>] is
    [gmap string _]. Out-parameters are passed in and returned. The
    collaborators whose code lives in other translation units (RANSAC solvers,
    camera model, visibility pyramid, EXIF reader, descriptor extractor, file
    system, matcher) are interfaces: type classes whose instances are supplied
    by the caller of each definition. Calls of collaborators, log messages and
    lock operations are recorded in a trace. The tasks of the thread pool are
    run one after the other; the interleaving of tasks is not modelled. *)

From Stdlib Require Import ZArith Ascii String PrimFloat.
From stdpp Require Import gmap strings list.

Local Open Scope Z_scope.

(** ** Plain data *)

(** [Eigen::Vector2d], [Eigen::Vector3d], [Eigen::Matrix3d] (row major). *)
Definition Vector2d : Type := float * float.
Definition Vector3d : Type := float * float * float.
Definition Matrix3d : Type := Vector3d * Vector3d * Vector3d.

(** [Eigen]'s [hnormalized()] on a 3-vector: divide by the last coordinate. *)
Definition hnormalized (v : Vector3d) : Vector2d :=
  let '(a, b, c) := v in ((a / c)%float, (b / c)%float).

(** [double * Vector3d]. *)
Definition scale3 (k : float) (v : Vector3d) : Vector3d :=
  let '(a, b, c) := v in ((k * a)%float, (k * b)%float, (k * c)%float).

(** Conversion of a value to C++ [int] (two's complement, 32 bits). *)
Definition to_int (z : Z) : Z := (z + 2 ^ 31) mod 2 ^ 32 - 2 ^ 31.

(** [static_cast<double>] of an [int]: exact, every 32-bit integer is a
    binary64 value and so is each intermediate result below. *)
Fixpoint double_of_positive (p : positive) : float :=
  match p with
  | xH => 1%float
  | xO q => (2 * double_of_positive q)%float
  | xI q => (2 * double_of_positive q + 1)%float
  end.

Definition double_of_int (z : Z) : float :=
  match z with
  | Z0 => 0%float
  | Zpos p => double_of_positive p
  | Zneg p => (- double_of_positive p)%float
  end.

(** [template <int N> struct Prior { bool is_set; double value[N]; }]. *)
Record Prior := mkPrior {
  is_set : bool;
  value : list float
}.

(** [value[i]] of a prior. *)
Definition value_at (p : Prior) (i : nat) : float := nth i (value p) 0%float.

Definition unset_prior (n : nat) : Prior := mkPrior false (repeat 0%float n).

(** Modelled from the spec: [camera_intrinsics_prior.h] is not among the
    sources. The record has the fields of the calibration prior of the data
    model, each optional field with its own set flag, and the two image
    dimensions, which are plain [int]s ([0] when unknown). *)
Record CameraIntrinsicsPrior := mkCameraIntrinsicsPrior {
  focal_length : Prior;
  principal_point : Prior;
  aspect_ratio : Prior;
  skew : Prior;
  radial_distortion : Prior;
  image_width : Z;
  image_height : Z
}.

(** The default-constructed prior: nothing set, dimensions unknown. *)
Definition default_prior : CameraIntrinsicsPrior :=
  mkCameraIntrinsicsPrior (unset_prior 1) (unset_prior 2) (unset_prior 1)
                          (unset_prior 1) (unset_prior 4) 0 0.

Definition with_focal_length (f : Prior) (p : CameraIntrinsicsPrior)
  : CameraIntrinsicsPrior :=
  mkCameraIntrinsicsPrior f (principal_point p) (aspect_ratio p) (skew p)
                          (radial_distortion p) (image_width p) (image_height p).

(** [struct FeatureCorrespondence { Feature feature1, feature2; }]. *)
Record FeatureCorrespondence := mkCorrespondence {
  feature1 : Vector2d;
  feature2 : Vector2d
}.

(** * The two-view geometry estimator *)
Module TwoView.

(** The fields of [EstimateTwoViewInfoOptions] the estimator reads. *)
Record EstimateTwoViewInfoOptions := mkOptions {
  rng : nat;
  ransac_type : nat;
  expected_ransac_confidence : float;
  min_ransac_iterations : Z;
  max_ransac_iterations : Z;
  max_sampson_error_pixels : float;
  use_mle : bool
}.

Record RansacParameters := mkRansacParameters {
  rp_rng : nat;
  error_thresh : float;
  failure_probability : float;
  min_iterations : Z;
  max_iterations : Z;
  rp_use_mle : bool
}.

Record RansacSummary := mkSummary {
  inliers : list Z
}.

Record RelativePose := mkRelativePose {
  rotation : Matrix3d;
  position : Vector3d
}.

Record UncalibratedRelativePose := mkUncalibratedRelativePose {
  focal_length1 : float;
  focal_length2 : float;
  u_rotation : Matrix3d;
  u_position : Vector3d
}.

(** The fields of [TwoViewInfo] the estimator writes. *)
Record TwoViewInfo := mkTwoViewInfo {
  focal_length_1 : float;
  focal_length_2 : float;
  position_2 : Vector3d;
  rotation_2 : Vector3d;
  num_verified_matches : Z;
  visibility_score : Z
}.

(** ** Collaborators *)

(** [theia::Camera], as far as feature normalisation uses it. *)
Class CameraModel := {
  Camera : Type;
  new_camera : Camera;
  SetFromCameraIntrinsicsPriors : CameraIntrinsicsPrior -> Camera -> Camera;
  SetFocalLength : float -> Camera -> Camera;
  FocalLength : Camera -> float;
  PixelToNormalizedCoordinates : Camera -> Vector2d -> Vector3d;
  FocalLength_SetFocalLength :
    forall f c, FocalLength (SetFocalLength f c) = f
}.

(** [theia::VisibilityPyramid]: only its scoring contract is used. *)
Class PyramidModel := {
  VisibilityPyramid : Type;
  new_pyramid : Z -> Z -> Z -> VisibilityPyramid;
  AddPoint : Vector2d -> VisibilityPyramid -> VisibilityPyramid;
  ComputeScore : VisibilityPyramid -> Z
}.

(** The RANSAC relative-pose solvers, the default-constructed
    [RansacParameters], the rotation-matrix to angle-axis conversion of Eigen
    (angle and unit axis) and [ComputeResolutionScaledThreshold]. A solver
    returns [None] when it reports failure. *)
Class Solvers := {
  EstimateRelativePose :
    RansacParameters -> nat -> list FeatureCorrespondence ->
    option (RelativePose * RansacSummary);
  EstimateUncalibratedRelativePose :
    RansacParameters -> nat -> list FeatureCorrespondence ->
    option (UncalibratedRelativePose * RansacSummary);
  default_ransac_parameters : RansacParameters;
  AngleAxisd : Matrix3d -> float * Vector3d;
  ComputeResolutionScaledThreshold : float -> Z -> Z -> float
}.

(** What a call does that is visible outside its return value: a logged
    warning, or a call of one of the two solvers with its arguments and what
    the solver answered. *)
Inductive Event :=
| LogWarning (msg : string)
| CallEstimateRelativePose
    (p : RansacParameters) (t : nat) (cs : list FeatureCorrespondence)
    (answer : option (RelativePose * RansacSummary))
| CallEstimateUncalibratedRelativePose
    (p : RansacParameters) (t : nat) (cs : list FeatureCorrespondence)
    (answer : option (UncalibratedRelativePose * RansacSummary)).

(** The result of an estimator call: the [bool] it returns, the two
    out-parameters as the call leaves them, and the events of the call. *)
Record Outcome := mkOutcome {
  ret : bool;
  twoview_info : TwoViewInfo;
  inlier_indices : list Z;
  trace : list Event
}.

Section Estimator.
Context `{CameraModel} `{PyramidModel} `{Solvers}.

Definition normalization_cameras (prior1 prior2 : CameraIntrinsicsPrior)
  : Camera * Camera :=
  let camera1 := SetFromCameraIntrinsicsPriors prior1 new_camera in
  let camera2 := SetFromCameraIntrinsicsPriors prior2 new_camera in
  if negb (is_set (focal_length prior1)) || negb (is_set (focal_length prior2))
  then (SetFocalLength 1%float camera1, SetFocalLength 1%float camera2)
  else (camera1, camera2).

(** The body of the loop of [NormalizeFeatures]. *)
Definition normalize_with (camera1 camera2 : Camera)
    (correspondence : FeatureCorrespondence) : FeatureCorrespondence :=
  mkCorrespondence
    (hnormalized
       (PixelToNormalizedCoordinates camera1 (feature1 correspondence)))
    (hnormalized
       (PixelToNormalizedCoordinates camera2 (feature2 correspondence))).

Definition NormalizeFeatures (prior1 prior2 : CameraIntrinsicsPrior)
    (correspondences : list FeatureCorrespondence)
  : list FeatureCorrespondence :=
  let '(camera1, camera2) := normalization_cameras prior1 prior2 in
  map (normalize_with camera1 camera2) correspondences.

Definition kNumPyramidLevels : Z := 6.

(** The loop over the inlier indices. [correspondences[i]] is an unchecked
    access: an index outside the vector has no defined behaviour, which is
    [None] here. *)
Fixpoint add_inliers (correspondences : list FeatureCorrespondence)
    (inlier_indices : list Z) (pyramids : VisibilityPyramid * VisibilityPyramid)
  : option (VisibilityPyramid * VisibilityPyramid) :=
  match inlier_indices with
  | [] => Some pyramids
  | i :: rest =>
      if i <? 0 then None else
      match correspondences !! Z.to_nat i with
      | None => None
      | Some match_ =>
          add_inliers correspondences rest
            (AddPoint (feature1 match_) (fst pyramids),
             AddPoint (feature2 match_) (snd pyramids))
      end
  end.

Definition ComputeVisibilityScoreOfInliers
    (intrinsics1 intrinsics2 : CameraIntrinsicsPrior)
    (correspondences : list FeatureCorrespondence) (inlier_indices : list Z)
  : option Z :=
  if (image_width intrinsics1 =? 0) || (image_height intrinsics1 =? 0) ||
     (image_width intrinsics2 =? 0) || (image_height intrinsics2 =? 0)
  then Some (to_int (Z.of_nat (length inlier_indices)))
  else
    let pyramid1 := new_pyramid (image_width intrinsics1)
                                (image_height intrinsics1) kNumPyramidLevels in
    let pyramid2 := new_pyramid (image_width intrinsics2)
                                (image_height intrinsics2) kNumPyramidLevels in
    match add_inliers correspondences inlier_indices (pyramid1, pyramid2) with
    | None => None
    | Some (pyramid1, pyramid2) =>
        Some (to_int (ComputeScore pyramid1 + ComputeScore pyramid2))
    end.

Definition scaled_budget (options : EstimateTwoViewInfoOptions)
    (intrinsics : CameraIntrinsicsPrior) : float :=
  ComputeResolutionScaledThreshold (max_sampson_error_pixels options)
    (image_width intrinsics) (image_height intrinsics).

Definition EstimateTwoViewInfoCalibrated (options : EstimateTwoViewInfoOptions)
    (intrinsics1 intrinsics2 : CameraIntrinsicsPrior)
    (correspondences : list FeatureCorrespondence)
    (twoview_info : TwoViewInfo) (inlier_indices : list Z)
  : option Outcome :=
  let normalized_correspondences :=
    NormalizeFeatures intrinsics1 intrinsics2 correspondences in
  let max_sampson_error_pixels1 := scaled_budget options intrinsics1 in
  let max_sampson_error_pixels2 := scaled_budget options intrinsics2 in
  let ransac_options :=
    {| rp_rng := rng options;
       failure_probability := (1 - expected_ransac_confidence options)%float;
       min_iterations := min_ransac_iterations options;
       max_iterations := max_ransac_iterations options;
       error_thresh :=
         (max_sampson_error_pixels1 * max_sampson_error_pixels2 /
          (value_at (focal_length intrinsics1) 0 *
           value_at (focal_length intrinsics2) 0))%float;
       rp_use_mle := use_mle options |} in
  let answer := EstimateRelativePose ransac_options (ransac_type options)
                                     normalized_correspondences in
  let call := CallEstimateRelativePose ransac_options (ransac_type options)
                                       normalized_correspondences answer in
  match answer with
  | None => Some (mkOutcome false twoview_info inlier_indices [call])
  | Some (relative_pose, summary) =>
      let '(angle, axis) := AngleAxisd (rotation relative_pose) in
      match ComputeVisibilityScoreOfInliers intrinsics1 intrinsics2
                                            correspondences inlier_indices with
      | None => None
      | Some score =>
          Some (mkOutcome true
                  {| rotation_2 := scale3 angle axis;
                     position_2 := position relative_pose;
                     focal_length_1 := value_at (focal_length intrinsics1) 0;
                     focal_length_2 := value_at (focal_length intrinsics2) 0;
                     num_verified_matches :=
                       to_int (Z.of_nat (length (inliers summary)));
                     visibility_score := score |}
                  (inliers summary) [call])
      end
  end.

Definition EstimateTwoViewInfoUncalibrated (options : EstimateTwoViewInfoOptions)
    (intrinsics1 intrinsics2 : CameraIntrinsicsPrior)
    (correspondences : list FeatureCorrespondence)
    (twoview_info : TwoViewInfo) (inlier_indices : list Z)
  : option Outcome :=
  let centered_correspondences :=
    NormalizeFeatures intrinsics1 intrinsics2 correspondences in
  let max_sampson_error_pixels1 := scaled_budget options intrinsics1 in
  let max_sampson_error_pixels2 := scaled_budget options intrinsics2 in
  let ransac_options :=
    {| rp_rng := rng options;
       failure_probability := (1 - expected_ransac_confidence options)%float;
       min_iterations := min_ransac_iterations options;
       max_iterations := max_ransac_iterations options;
       error_thresh :=
         (max_sampson_error_pixels1 * max_sampson_error_pixels2)%float;
       rp_use_mle := rp_use_mle default_ransac_parameters |} in
  let answer := EstimateUncalibratedRelativePose
                  ransac_options (ransac_type options)
                  centered_correspondences in
  let call := CallEstimateUncalibratedRelativePose
                ransac_options (ransac_type options) centered_correspondences
                answer in
  match answer with
  | None => Some (mkOutcome false twoview_info inlier_indices [call])
  | Some (relative_pose, summary) =>
      let '(angle, axis) := AngleAxisd (u_rotation relative_pose) in
      match ComputeVisibilityScoreOfInliers intrinsics1 intrinsics2
                                            correspondences inlier_indices with
      | None => None
      | Some score =>
          Some (mkOutcome true
                  {| rotation_2 := scale3 angle axis;
                     position_2 := u_position relative_pose;
                     focal_length_1 := focal_length1 relative_pose;
                     focal_length_2 := focal_length2 relative_pose;
                     num_verified_matches :=
                       to_int (Z.of_nat (length (inliers summary)));
                     visibility_score := score |}
                  (inliers summary) [call])
      end
  end.

Definition warn_mixed : string :=
  "Solving for two view infos when exactly one view is calibrated has not been implemented yet. Treating both views as uncalibrated instead.".

Definition prepend (e : Event) (o : option Outcome) : option Outcome :=
  match o with
  | None => None
  | Some o => Some (mkOutcome (ret o) (twoview_info o) (inlier_indices o)
                              (e :: trace o))
  end.

(** [twoview_info] and [inlier_indices] are the out-parameters as the caller
    passes them; [inlier_indices] is cleared on entry. *)
Definition EstimateTwoViewInfo (options : EstimateTwoViewInfoOptions)
    (intrinsics1 intrinsics2 : CameraIntrinsicsPrior)
    (correspondences : list FeatureCorrespondence)
    (twoview_info : TwoViewInfo) (inlier_indices : list Z)
  : option Outcome :=
  let inlier_indices : list Z := [] in
  if is_set (focal_length intrinsics1) && is_set (focal_length intrinsics2)
  then EstimateTwoViewInfoCalibrated options intrinsics1 intrinsics2
         correspondences twoview_info inlier_indices
  else if is_set (focal_length intrinsics1) || is_set (focal_length intrinsics2)
  then prepend (LogWarning warn_mixed)
         (EstimateTwoViewInfoUncalibrated options intrinsics1 intrinsics2
            correspondences twoview_info inlier_indices)
  else EstimateTwoViewInfoUncalibrated options intrinsics1 intrinsics2
         correspondences twoview_info inlier_indices.

(** ** Reading a trace *)

(** The parameter records handed to a solver during the call. *)
Definition solver_parameters (e : Event) : list RansacParameters :=
  match e with
  | LogWarning _ => []
  | CallEstimateRelativePose p _ _ _ => [p]
  | CallEstimateUncalibratedRelativePose p _ _ _ => [p]
  end.

(** The correspondences handed to a solver during the call. *)
Definition solver_inputs (e : Event) : list (list FeatureCorrespondence) :=
  match e with
  | LogWarning _ => []
  | CallEstimateRelativePose _ _ cs _ => [cs]
  | CallEstimateUncalibratedRelativePose _ _ cs _ => [cs]
  end.

Definition is_calibrated_call (e : Event) : bool :=
  match e with CallEstimateRelativePose _ _ _ _ => true | _ => false end.

Definition is_uncalibrated_call (e : Event) : bool :=
  match e with
  | CallEstimateUncalibratedRelativePose _ _ _ _ => true
  | _ => false
  end.

(** A solver call that reported failure. *)
Definition is_failed_call (e : Event) : bool :=
  match e with
  | CallEstimateRelativePose _ _ _ None => true
  | CallEstimateUncalibratedRelativePose _ _ _ None => true
  | _ => false
  end.

(** The focal lengths recovered by the uncalibrated solver, when it was
    called and succeeded. *)
Definition recovered_focal_lengths (e : Event) : list (float * float) :=
  match e with
  | CallEstimateUncalibratedRelativePose _ _ _ (Some (pose, _)) =>
      [(focal_length1 pose, focal_length2 pose)]
  | _ => []
  end.

(** The inliers reported by a solver, when it was called and succeeded. *)
Definition reported_inliers (e : Event) : list (list Z) :=
  match e with
  | CallEstimateRelativePose _ _ _ (Some (_, summary)) => [inliers summary]
  | CallEstimateUncalibratedRelativePose _ _ _ (Some (_, summary)) =>
      [inliers summary]
  | _ => []
  end.

(** An event of the trace is what the collaborator really answered. *)
Definition faithful (e : Event) : Prop :=
  match e with
  | LogWarning _ => True
  | CallEstimateRelativePose p t cs answer =>
      EstimateRelativePose p t cs = answer
  | CallEstimateUncalibratedRelativePose p t cs answer =>
      EstimateUncalibratedRelativePose p t cs = answer
  end.

Definition dimensions_unknown (intrinsics1 intrinsics2 : CameraIntrinsicsPrior)
  : bool :=
  (image_width intrinsics1 =? 0) || (image_height intrinsics1 =? 0) ||
  (image_width intrinsics2 =? 0) || (image_height intrinsics2 =? 0).

(** No inlier, no insertion: the score of an empty index vector. *)
Definition score_without_inliers (intrinsics1 intrinsics2 : CameraIntrinsicsPrior)
  : Z :=
  if dimensions_unknown intrinsics1 intrinsics2 then 0
  else to_int
         (ComputeScore (new_pyramid (image_width intrinsics1)
                                    (image_height intrinsics1) 6) +
          ComputeScore (new_pyramid (image_width intrinsics2)
                                    (image_height intrinsics2) 6)).

(** The two resolution-scaled budgets and the two focal lengths of a pair. *)
Definition budget_product (options : EstimateTwoViewInfoOptions)
    (intrinsics1 intrinsics2 : CameraIntrinsicsPrior) : float :=
  (scaled_budget options intrinsics1 * scaled_budget options intrinsics2)%float.

Definition focal_product (intrinsics1 intrinsics2 : CameraIntrinsicsPrior)
  : float :=
  (value_at (focal_length intrinsics1) 0 *
   value_at (focal_length intrinsics2) 0)%float.

Definition both_calibrated (intrinsics1 intrinsics2 : CameraIntrinsicsPrior)
  : bool :=
  is_set (focal_length intrinsics1) && is_set (focal_length intrinsics2).

End Estimator.

End TwoView.

(** * The feature extraction and matching pipeline *)
Module Pipeline.

Local Open Scope string_scope.
Local Open Scope Z_scope.

(** [theia::Keypoint], as far as the pipeline reads it: [x()] and [y()]. *)
Record Keypoint := mkKeypoint {
  kp_x : float;
  kp_y : float
}.

(** [Eigen::VectorXf]. *)
Definition Descriptor : Type := list float.

Record FeatureMatcherOptions := mkFeatureMatcherOptions {
  match_out_of_core : bool;
  keypoints_and_descriptors_output_dir : string
}.

(** The fields of [FeatureExtractorAndMatcher::Options] the pipeline reads;
    [num_threads] and [max_num_features] are [int]s. *)
Record Options := mkOptions {
  num_threads : Z;
  only_calibrated_views : bool;
  max_num_features : Z;
  descriptor_extractor_type : nat;
  feature_density : nat;
  feature_matcher_options : FeatureMatcherOptions
}.

(** The two overloads of [FeatureMatcher::AddImage]. *)
Inductive Registration :=
| AddImageCached (image_filename : string) (intrinsics : CameraIntrinsicsPrior)
| AddImageWithFeatures (image_filename : string) (keypoints : list Keypoint)
    (descriptors : list Descriptor) (intrinsics : CameraIntrinsicsPrior).

Definition registered_name (r : Registration) : string :=
  match r with
  | AddImageCached n _ => n
  | AddImageWithFeatures n _ _ _ => n
  end.

Inductive Mutex := intrinsics_mutex_ | matcher_mutex_.

(** What the pipeline does that is visible outside the object. *)
Inductive Event :=
| Log (msg : string) (subject : string)
| Lock (m : Mutex)
| Unlock (m : Mutex)
| CallDetectAndExtractDescriptors (image_filepath : string) (ok : bool)
| CallMatcherAddImage (r : Registration)
| CallMatchImages.

(** The members of [FeatureExtractorAndMatcher]. The matcher is the sequence
    of registrations it has received; [events] is the trace so far. *)
Record State := mkState {
  image_filepaths_ : list string;
  intrinsics_ : gmap string CameraIntrinsicsPrior;
  image_masks_ : gmap string string;
  matcher_ : list Registration;
  events : list Event
}.

Definition empty_state : State := mkState [] ∅ ∅ [] [].

(** ** Collaborators *)

(** File system, EXIF reader, path utilities, images, descriptor extractor and
    the matcher's batch operation. [ExtractEXIFMetadata] and
    [DetectAndExtractDescriptors] return their [bool] together with their
    out-parameters. The file system is read only: the model has no operation
    that creates or removes a file. *)
Class Environment := {
  FileExists : string -> bool;
  ExtractEXIFMetadata :
    string -> CameraIntrinsicsPrior -> bool * CameraIntrinsicsPrior;
  GetFilenameFromFilepath : string -> bool -> option string;
  AppendTrailingSlashIfNeeded : string -> string;
  FloatImage : Type;
  read_image : string -> FloatImage;
  Width : FloatImage -> Z;
  Height : FloatImage -> Z;
  ConvertToGrayscaleImage : FloatImage -> FloatImage;
  BilinearInterpolate : FloatImage -> float -> float -> Z -> float;
  DetectAndExtractDescriptors :
    nat -> nat -> FloatImage -> list Keypoint -> list Descriptor ->
    bool * list Keypoint * list Descriptor;
  ImagePairMatch : Type;
  MatchImages : list Registration -> list ImagePairMatch
}.

(** ** A state and error monad

    [Fatal] is a failed [CHECK] (the process aborts); [Undefined] is an
    access with no defined behaviour. *)
Inductive Result (A : Type) :=
| Ok (a : A)
| Fatal (msg : string)
| Undefined.
Arguments Ok {A} a.
Arguments Fatal {A} msg.
Arguments Undefined {A}.

Definition M (A : Type) : Type := State -> Result (A * State).

Definition mret {A} (a : A) : M A := fun s => Ok (a, s).

Definition mbind {A B} (m : M A) (k : A -> M B) : M B :=
  fun s => match m s with
           | Ok (a, s') => k a s'
           | Fatal msg => Fatal msg
           | Undefined => Undefined
           end.

Notation "x <- m ;; k" := (mbind m (fun x => k))
  (at level 100, m at next level, right associativity).
Notation "m ;;; k" := (mbind m (fun _ => k))
  (at level 100, right associativity).

Definition get : M State := fun s => Ok (s, s).

Definition fatal {A} (msg : string) : M A := fun _ => Fatal msg.

Definition undefined {A} : M A := fun _ => Undefined.

(** [CHECK(cond) << msg]. *)
Definition CHECK (cond : bool) (msg : string) : M unit :=
  if cond then mret tt else fatal msg.

Definition emit (e : Event) : M unit :=
  fun s => Ok (tt, mkState (image_filepaths_ s) (intrinsics_ s)
                           (image_masks_ s) (matcher_ s) (events s ++ [e])).

(** [intrinsics_[image_filepath] = intrinsics]. *)
Definition store_intrinsics (image_filepath : string)
    (intrinsics : CameraIntrinsicsPrior) : M unit :=
  fun s => Ok (tt, mkState (image_filepaths_ s)
                           (<[image_filepath := intrinsics]> (intrinsics_ s))
                           (image_masks_ s) (matcher_ s) (events s)).

(** [matcher_->AddImage(...)]. *)
Definition matcher_AddImage (r : Registration) : M unit :=
  fun s => Ok (tt, mkState (image_filepaths_ s) (intrinsics_ s)
                           (image_masks_ s) (matcher_ s ++ [r])
                           (events s ++ [CallMatcherAddImage r])).

(** Modelled from the spec: [theia/util/map_util.h] is not among the
    sources. [FindWithDefault] is the lookup that falls back to the given
    value (an image registered without a prior has the default one), and
    [FindOrDie] is the lookup by which the output vector is read from the
    shared map in registration order; as its name says, a miss is a failed
    [CHECK]. *)
Definition FindWithDefault {V} (m : gmap string V) (k : string) (d : V) : V :=
  default d (m !! k).

Definition FindOrDie {V} (m : gmap string V) (k : string) : M V :=
  match m !! k with
  | Some v => mret v
  | None => fatal "Map key not found"
  end.

(** ** Registration

    [SetPairsToMatch] only forwards file names to the matcher and is not
    translated. *)

Definition AddImage (image_filepath : string) : M bool :=
  fun s => Ok (true, mkState (image_filepaths_ s ++ [image_filepath])
                             (intrinsics_ s) (image_masks_ s) (matcher_ s)
                             (events s)).

Definition AddImageWithPrior (image_filepath : string)
    (intrinsics : CameraIntrinsicsPrior) : M bool :=
  added <- AddImage image_filepath ;;
  if negb added then mret false
  else (store_intrinsics image_filepath intrinsics ;;; mret true).

Definition AddMaskForFeaturesExtraction (image_filepath mask_filepath : string)
  : M bool :=
  fun s => Ok (true, mkState (image_filepaths_ s) (intrinsics_ s)
                             (<[image_filepath := mask_filepath]> (image_masks_ s))
                             (matcher_ s) (events s)).

Section Run.
Context `{Environment}.
Variable options_ : Options.

(** ** [ExtractFeatures] *)

Definition kMaskThreshold : float := 0.5%float.

(** The test of the mask loop on one keypoint. *)
Definition masked_out (image_mask : FloatImage) (k : Keypoint) : bool :=
  (BilinearInterpolate image_mask (kp_x k) (kp_y k) 0 <? kMaskThreshold)%float.

(** [v->erase(v->begin() + i)]: defined only for a position in the vector. *)
Definition erase {A} (i : nat) (v : list A) : option (list A) :=
  if decide (i < length v)%nat then Some (delete i v) else None.

(** The mask loop, [for (int i = size - 1; i > -1; i--)]: [n] is [i + 1].
    [keypoints->at(i)] is a checked access that throws when it misses. *)
Fixpoint mask_loop (image_mask : FloatImage) (n : nat)
    (keypoints : list Keypoint) (descriptors : list Descriptor)
  : Result (list Keypoint * list Descriptor) :=
  match n with
  | O => Ok (keypoints, descriptors)
  | S i =>
      match keypoints !! i with
      | None => Fatal "std::out_of_range"
      | Some k =>
          if masked_out image_mask k then
            match erase i keypoints, erase i descriptors with
            | Some keypoints', Some descriptors' =>
                mask_loop image_mask i keypoints' descriptors'
            | _, _ => Undefined
            end
          else mask_loop image_mask i keypoints descriptors
      end
  end.

(** [v->resize(n)]: cut, or fill up with default-constructed elements. *)
Definition resize {A} (n : nat) (d : A) (v : list A) : list A :=
  take n v ++ replicate (n - length v) d.

(** An [int] converted to [size_t]. *)
Definition to_size_t (z : Z) : Z := z mod 2 ^ 64.

Definition lift {A} (r : Result A) : M A :=
  fun s => match r with
           | Ok a => Ok (a, s)
           | Fatal msg => Fatal msg
           | Undefined => Undefined
           end.

Definition ExtractFeatures (image_filepath imagemask_filepath : string)
    (keypoints : list Keypoint) (descriptors : list Descriptor)
  : M (list Keypoint * list Descriptor) :=
  let image := read_image image_filepath in
  let '(ok, keypoints, descriptors) :=
    DetectAndExtractDescriptors (descriptor_extractor_type options_)
      (feature_density options_) image keypoints descriptors in
  emit (CallDetectAndExtractDescriptors image_filepath ok) ;;;
  if negb ok then
    emit (Log "Could not extract descriptors in image" image_filepath) ;;;
    mret (keypoints, descriptors)
  else
    filtered <-
      (if (0 <? String.length imagemask_filepath)%nat then
         let image_mask := read_image imagemask_filepath in
         CHECK ((Width image_mask =? Width image) &&
                (Height image_mask =? Height image))
               "The image and the mask don't have the same size." ;;;
         let image_mask := ConvertToGrayscaleImage image_mask in
         lift (mask_loop image_mask (length keypoints) keypoints descriptors)
       else mret (keypoints, descriptors)) ;;
    let '(keypoints, descriptors) := filtered in
    let cap := to_size_t (max_num_features options_) in
    let '(keypoints, descriptors) :=
      if Z.of_nat (length keypoints) >? cap
      then (resize (Z.to_nat cap) (mkKeypoint 0 0) keypoints,
            resize (Z.to_nat cap) [] descriptors)
      else (keypoints, descriptors) in
    emit (Log (if (0 <? String.length imagemask_filepath)%nat
               then "Successfully extracted features with an image mask from image"
               else "Successfully extracted features from image")
              image_filepath) ;;;
    mret (keypoints, descriptors).

(** ** [ProcessImage] *)

(** The C++ literal [1.2] as a [double]. *)
Definition kFocalLengthScale : float := 0x1.3333333333333p+0%float.

(** The heuristic focal length of an image without EXIF focal length. *)
Definition heuristic_focal_length (intrinsics : CameraIntrinsicsPrior)
  : CameraIntrinsicsPrior :=
  if negb (only_calibrated_views options_) &&
     negb (is_set (focal_length intrinsics))
  then with_focal_length
         (mkPrior true
            (<[0%nat := (kFocalLengthScale * double_of_int
                           (Z.max (image_width intrinsics)
                                  (image_height intrinsics)))%float]>
               (value (focal_length intrinsics))))
         intrinsics
  else intrinsics.

(** The block that resolves the calibration of an image whose stored prior
    has no focal length, and writes it back under the map's lock. *)
Definition resolve_calibration (image_filepath : string)
    (intrinsics : CameraIntrinsicsPrior) : M CameraIntrinsicsPrior :=
  if negb (is_set (focal_length intrinsics)) then
    let '(ok, intrinsics) := ExtractEXIFMetadata image_filepath intrinsics in
    CHECK ok "ExtractEXIFMetadata" ;;;
    let intrinsics := heuristic_focal_length intrinsics in
    emit (Lock intrinsics_mutex_) ;;;
    store_intrinsics image_filepath intrinsics ;;;
    emit (Unlock intrinsics_mutex_) ;;;
    mret intrinsics
  else mret intrinsics.

Definition feature_filepath (image_filename : string) : string :=
  AppendTrailingSlashIfNeeded
    (keypoints_and_descriptors_output_dir (feature_matcher_options options_))
  +:+ image_filename +:+ ".features".

Definition ProcessImage (i : nat) : M unit :=
  s <- get ;;
  match image_filepaths_ s !! i with
  | None => undefined
  | Some image_filepath =>
      let intrinsics :=
        FindWithDefault (intrinsics_ s) image_filepath default_prior in
      let mask_filepath := FindWithDefault (image_masks_ s) image_filepath "" in
      intrinsics <- resolve_calibration image_filepath intrinsics ;;
      if only_calibrated_views options_ &&
         negb (is_set (focal_length intrinsics))
      then emit (Log "did not contain an EXIF focal length. Skipping this image."
                     image_filepath)
      else
        emit (Log "is initialized with the focal length" image_filepath) ;;;
        match GetFilenameFromFilepath image_filepath true with
        | None => fatal "GetFilenameFromFilepath"
        | Some image_filename =>
            if match_out_of_core (feature_matcher_options options_) &&
               FileExists (feature_filepath image_filename)
            then
              emit (Lock matcher_mutex_) ;;;
              matcher_AddImage (AddImageCached image_filename intrinsics) ;;;
              emit (Unlock matcher_mutex_)
            else
              extracted <- ExtractFeatures image_filepath mask_filepath [] [] ;;
              let '(keypoints, descriptors) := extracted in
              emit (Lock matcher_mutex_) ;;;
              matcher_AddImage
                (AddImageWithFeatures image_filename keypoints descriptors
                                      intrinsics) ;;;
              emit (Unlock matcher_mutex_)
        end
  end.

(** The prior [ProcessImage] works with once the calibration is resolved. *)
Definition resolved_prior (image_filepath : string)
    (intrinsics : CameraIntrinsicsPrior) : CameraIntrinsicsPrior :=
  if is_set (focal_length intrinsics) then intrinsics
  else heuristic_focal_length (snd (ExtractEXIFMetadata image_filepath intrinsics)).

(** The state [resolve_calibration] leaves when the EXIF reader succeeds. *)
Definition after_resolution (image_filepath : string)
    (intrinsics : CameraIntrinsicsPrior) (s : State) : State :=
  if is_set (focal_length intrinsics) then s
  else mkState (image_filepaths_ s)
               (<[image_filepath := resolved_prior image_filepath intrinsics]>
                  (intrinsics_ s))
               (image_masks_ s) (matcher_ s)
               (events s ++ [Lock intrinsics_mutex_; Unlock intrinsics_mutex_]).

(** The test of the early exit of [ProcessImage]. *)
Definition excluded_by_policy (intrinsics : CameraIntrinsicsPrior) : bool :=
  only_calibrated_views options_ && negb (is_set (focal_length intrinsics)).

(** The test that skips the extraction in [ProcessImage]. *)
Definition cache_hit (image_filename : string) : bool :=
  match_out_of_core (feature_matcher_options options_) &&
  FileExists (feature_filepath image_filename).

(** The keypoint and descriptor pairs the mask loop keeps. *)
Definition survivors (image_mask : FloatImage)
    (features : list (Keypoint * Descriptor)) : list (Keypoint * Descriptor) :=
  List.filter (fun kd => negb (masked_out image_mask (fst kd))) features.

(** ** [ExtractAndMatchFeatures] *)

(** The submission loop. The tasks of the pool (of at least one worker) are
    run one after the other, in submission order, each to completion; the
    destructor of the pool is the barrier. A failed [CHECK] in a task aborts
    the process, hence the run. *)
Fixpoint submit_all (i : nat) (image_filepaths : list string) : M unit :=
  match image_filepaths with
  | [] => mret tt
  | image_filepath :: rest =>
      (if negb (FileExists image_filepath)
       then emit (Log "Could not extract features because the file cannot be found."
                      image_filepath)
       else ProcessImage i) ;;;
      submit_all (S i) rest
  end.

(** The output loop: element [i] of the output vector is the result of
    [FindOrDie] on the shared map at [image_filepaths_[i]]. *)
Fixpoint collect_intrinsics (image_filepaths : list string)
  : M (list CameraIntrinsicsPrior) :=
  match image_filepaths with
  | [] => mret []
  | image_filepath :: rest =>
      s <- get ;;
      prior <- FindOrDie (intrinsics_ s) image_filepath ;;
      priors <- collect_intrinsics rest ;;
      mret (prior :: priors)
  end.

Definition ExtractAndMatchFeatures
  : M (list CameraIntrinsicsPrior * list ImagePairMatch) :=
  s <- get ;;
  submit_all 0 (image_filepaths_ s) ;;;
  emit CallMatchImages ;;;
  s' <- get ;;
  let matches := MatchImages (matcher_ s') in
  intrinsics <- collect_intrinsics (image_filepaths_ s') ;;
  mret (intrinsics, matches).

End Run.

(** ** Reading a state *)

(** Every field of a prior that is set in [p] is set in [q]: the five
    flagged fields by their flag, and the two image dimensions, which have no
    flag and are unknown when they are [0], by being different from [0]. *)
Definition flags_kept (p q : CameraIntrinsicsPrior) : Prop :=
  (is_set (focal_length p) -> is_set (focal_length q)) /\
  (is_set (principal_point p) -> is_set (principal_point q)) /\
  (is_set (aspect_ratio p) -> is_set (aspect_ratio q)) /\
  (is_set (skew p) -> is_set (skew q)) /\
  (is_set (radial_distortion p) -> is_set (radial_distortion q)) /\
  (image_width p <> 0 -> image_width q <> 0) /\
  (image_height p <> 0 -> image_height q <> 0).

(** No prior of the shared map loses a set field from [m] to [m']. *)
Definition never_unset (m m' : gmap string CameraIntrinsicsPrior) : Prop :=
  forall image_filepath p,
    m !! image_filepath = Some p ->
    exists q, m' !! image_filepath = Some q /\ flags_kept p q.

Definition is_extraction (e : Event) : bool :=
  match e with CallDetectAndExtractDescriptors _ _ => true | _ => false end.

(** Only the matcher and the trace differ between [s] and [s']. *)
Definition members_kept (s s' : State) : Prop :=
  image_filepaths_ s' = image_filepaths_ s /\
  intrinsics_ s' = intrinsics_ s /\
  image_masks_ s' = image_masks_ s.

(** The events a computation adds to the trace of [s]. *)
Definition new_events (s s' : State) : list Event :=
  drop (length (events s)) (events s').

End Pipeline.

(** * Concrete collaborators

    Small instances of the interfaces, on which the definitions above can be
    evaluated. *)
Module Examples.

Import TwoView.

(** A pinhole camera with a focal length and a principal point, set from a
    prior the way [FisheyeCameraModel::SetFromCameraIntrinsicsPriors] sets
    these two parameters (the scale factor [0.4] is written in binary). *)
Record PinholeCamera := mkPinhole {
  cam_focal : float;
  cam_px : float;
  cam_py : float
}.

Definition pinhole_from_prior (prior : CameraIntrinsicsPrior)
    (c : PinholeCamera) : PinholeCamera :=
  let known := negb (image_width prior =? 0) && negb (image_height prior =? 0) in
  let f :=
    if is_set (focal_length prior) then value_at (focal_length prior) 0
    else if known
    then (0x1.999999999999ap-2 *
          double_of_int (Z.max (image_width prior) (image_height prior)))%float
    else cam_focal c in
  let '(px, py) :=
    if is_set (principal_point prior)
    then (value_at (principal_point prior) 0, value_at (principal_point prior) 1)
    else if known
    then ((double_of_int (image_width prior) / 2)%float,
          (double_of_int (image_height prior) / 2)%float)
    else (cam_px c, cam_py c) in
  mkPinhole f px py.

Definition pinhole : CameraModel :=
  {| Camera := PinholeCamera;
     new_camera := mkPinhole 1 0 0;
     SetFromCameraIntrinsicsPriors := pinhole_from_prior;
     SetFocalLength f c := mkPinhole f (cam_px c) (cam_py c);
     FocalLength := cam_focal;
     PixelToNormalizedCoordinates c pt :=
       (((fst pt - cam_px c) / cam_focal c)%float,
        ((snd pt - cam_py c) / cam_focal c)%float, 1%float);
     FocalLength_SetFocalLength := fun _ _ => eq_refl |}.

(** A pyramid that remembers the inserted points and scores their number. *)
Definition counting_pyramid : PyramidModel :=
  {| VisibilityPyramid := list Vector2d;
     new_pyramid := fun _ _ _ => [];
     AddPoint := cons;
     ComputeScore := fun pts => Z.of_nat (length pts) |}.

Definition identity3 : Matrix3d :=
  ((1, 0, 0), (0, 1, 0), (0, 0, 1))%float.

(** Solvers with fixed answers. The threshold is scaled by the larger image
    dimension over 1024, and left alone when both dimensions are unknown. *)
Definition fixed_solvers
    (calibrated : option (RelativePose * RansacSummary))
    (uncalibrated : option (UncalibratedRelativePose * RansacSummary))
  : Solvers :=
  {| EstimateRelativePose := fun _ _ _ => calibrated;
     EstimateUncalibratedRelativePose := fun _ _ _ => uncalibrated;
     default_ransac_parameters := mkRansacParameters 0 0 0 0 0 false;
     AngleAxisd := fun _ => (0%float, (0, 0, 1)%float);
     ComputeResolutionScaledThreshold := fun t w h =>
       if (w =? 0) && (h =? 0) then t
       else (t * double_of_int (Z.max w h) / 1024)%float |}.

Definition failing_solvers : Solvers := fixed_solvers None None.

(** Three inliers, whatever the input. *)
Definition three_inliers : RansacSummary := mkSummary [0; 1; 2].

Definition succeeding_solvers : Solvers :=
  fixed_solvers
    (Some (mkRelativePose identity3 (1, 0, 0)%float, three_inliers))
    (Some (mkUncalibratedRelativePose 800 900 identity3 (1, 0, 0)%float,
           three_inliers)).

Definition options0 : EstimateTwoViewInfoOptions :=
  TwoView.mkOptions 0 0 0.75 10 100 4 false.

Definition focal (f : float) : Prior := mkPrior true [f].

(** Priors with a focal length and without, with and without dimensions. *)
Definition calibrated_prior : CameraIntrinsicsPrior :=
  mkCameraIntrinsicsPrior (focal 1024) (unset_prior 2) (unset_prior 1)
                          (unset_prior 1) (unset_prior 4) 2048 1024.

Definition calibrated_prior_no_size : CameraIntrinsicsPrior :=
  mkCameraIntrinsicsPrior (focal 1024) (unset_prior 2) (unset_prior 1)
                          (unset_prior 1) (unset_prior 4) 0 0.

Definition uncalibrated_prior : CameraIntrinsicsPrior :=
  mkCameraIntrinsicsPrior (unset_prior 1) (unset_prior 2) (unset_prior 1)
                          (unset_prior 1) (unset_prior 4) 1024 512.

Definition corr (a b c d : float) : FeatureCorrespondence :=
  mkCorrespondence (a, b) (c, d).

Definition correspondences0 : list FeatureCorrespondence :=
  [corr 10 20 12 21; corr 300 40 310 44; corr 500 600 505 590].

(** A record full of ones, to tell a written record from an untouched one. *)
Definition untouched : TwoViewInfo :=
  mkTwoViewInfo 1 1 (1, 1, 1)%float (1, 1, 1)%float 1 1.

(** *** The pipeline's collaborators *)

Import Pipeline.
Local Open Scope string_scope.

Fixpoint has_slash (s : string) : bool :=
  match s with
  | EmptyString => false
  | String c r => Ascii.eqb c "/"%char || has_slash r
  end.

(** The file name of a path: what follows its last slash. *)
Fixpoint basename (s : string) : string :=
  match s with
  | EmptyString => EmptyString
  | String _ r => if has_slash s then basename r else s
  end.

Fixpoint ends_with_slash (s : string) : bool :=
  match s with
  | EmptyString => false
  | String c EmptyString => Ascii.eqb c "/"%char
  | String _ r => ends_with_slash r
  end.

Definition member (s : string) (l : list string) : bool :=
  existsb (String.eqb s) l.

(** A disk: the files that exist, the images the extractor fails on, the
    images whose EXIF data has a focal length, and the features the extractor
    detects in every other image. Images are 640 by 480; the left half of a
    mask is black ([0.0]), the right half is white ([1.0]). *)
Record Disk := mkDisk {
  existing : list string;
  corrupt : list string;
  with_exif_focal : list string;
  detected : list (Keypoint * Descriptor)
}.

Definition exif_of (d : Disk) (path : string) (prior : CameraIntrinsicsPrior)
  : bool * CameraIntrinsicsPrior :=
  (true,
   mkCameraIntrinsicsPrior
     (if member path (with_exif_focal d) then focal 700 else focal_length prior)
     (principal_point prior) (aspect_ratio prior) (skew prior)
     (radial_distortion prior) 640 480).

Definition env_of (d : Disk) : Environment :=
  {| FileExists := fun path => member path (existing d);
     ExtractEXIFMetadata := exif_of d;
     GetFilenameFromFilepath := fun path _ => Some (basename path);
     AppendTrailingSlashIfNeeded := fun dir =>
       if ends_with_slash dir then dir else dir +:+ "/";
     FloatImage := string;
     read_image := fun path => path;
     Width := fun _ => 640;
     Height := fun _ => 480;
     ConvertToGrayscaleImage := fun image => image;
     BilinearInterpolate := fun _ x _ _ =>
       if (x <? 320)%float then 0%float else 1%float;
     DetectAndExtractDescriptors := fun _ _ image keypoints descriptors =>
       if member image (corrupt d) then (false, keypoints, descriptors)
       else (true, (keypoints ++ (detected d).*1)%list,
             (descriptors ++ (detected d).*2)%list);
     ImagePairMatch := string * string;
     MatchImages := fun registrations =>
       let names := map registered_name registrations in
       zip names (tail names) |}.

Definition feature (x y : float) (d : Descriptor) : Keypoint * Descriptor :=
  (mkKeypoint x y, d).

(** Four detected features: the first and the third lie on the black half
    of the mask. *)
Definition four_features : list (Keypoint * Descriptor) :=
  [feature 10 10 [1]; feature 400 20 [2]; feature 100 300 [3];
   feature 600 400 [4]]%float.

Definition pipeline_options (only_calibrated out_of_core : bool) (cap : Z)
  : Options :=
  Pipeline.mkOptions 2 only_calibrated cap 0 0
    (mkFeatureMatcherOptions out_of_core "cache").

(** A run's state right after the registration calls. *)
Definition registered (calls : list (M bool)) : State :=
  foldl (fun s call => match call s with
                       | Ok (_, s') => s'
                       | _ => s
                       end) empty_state calls.

(** Two images on disk, the second one unreadable for the extractor, and the
    cache file of the first. *)
Definition disk0 : Disk :=
  mkDisk ["img/a.jpg"; "img/b.jpg"; "cache/a.jpg.features"] ["img/b.jpg"] []
         four_features.

Definition two_images : State :=
  registered [AddImage "img/a.jpg"; AddImage "img/b.jpg";
              AddMaskForFeaturesExtraction "img/a.jpg" "mask/a.png"].

(** The second registered image has no file. *)
Definition one_missing : State :=
  registered [AddImage "img/a.jpg"; AddImage "img/c.jpg"].

(** An image registered with a prior that has a focal length. *)
Definition one_calibrated : State :=
  registered [AddImageWithPrior "img/a.jpg" calibrated_prior].

End Examples.

(** * Further readings of the estimator *)
Module TwoViewReadings.

Import TwoView.

Section Readings.
Context `{CameraModel} `{PyramidModel} `{Solvers}.

(** An index that [correspondences[i]] may be read at. *)
Definition in_bounds (correspondences : list FeatureCorrespondence) (i : Z)
  : Prop :=
  0 <= i < Z.of_nat (length correspondences).

(** The correspondences the inlier indices point at, in index order. *)
Definition inlier_matches (correspondences : list FeatureCorrespondence)
    (inlier_indices : list Z) : list FeatureCorrespondence :=
  omap (fun i => if i <? 0 then None else correspondences !! Z.to_nat i)
       inlier_indices.

(** A pyramid after the points have been added to it, first to last. *)
Definition insert_all (points : list Vector2d) (pyramid : VisibilityPyramid)
  : VisibilityPyramid :=
  foldl (fun acc point => AddPoint point acc) pyramid points.

Definition is_warning (e : Event) : bool :=
  match e with LogWarning _ => true | _ => false end.

(** The rotation and position a solver reported, when it was called and
    succeeded. *)
Definition reported_poses (e : Event) : list (Matrix3d * Vector3d) :=
  match e with
  | CallEstimateRelativePose _ _ _ (Some (pose, _)) =>
      [(rotation pose, position pose)]
  | CallEstimateUncalibratedRelativePose _ _ _ (Some (pose, _)) =>
      [(u_rotation pose, u_position pose)]
  | _ => []
  end.

End Readings.

End TwoViewReadings.

(** * Further readings of the pipeline *)
Module PipelineReadings.

Import Pipeline.
Local Open Scope string_scope.
Local Open Scope Z_scope.

Definition registrations_of (e : Event) : list Registration :=
  match e with CallMatcherAddImage r => [r] | _ => [] end.

(** The registrations the matcher receives during a trace. *)
Definition registrations_in (l : list Event) : list Registration :=
  flat_map registrations_of l.

Definition extractions_of (e : Event) : list string :=
  match e with CallDetectAndExtractDescriptors p _ => [p] | _ => [] end.

(** The images the extractor is called on during a trace. *)
Definition extractions_in (l : list Event) : list string :=
  flat_map extractions_of l.

Definition registered_prior (r : Registration) : CameraIntrinsicsPrior :=
  match r with
  | AddImageCached _ p => p
  | AddImageWithFeatures _ _ _ p => p
  end.

Definition mutex_eqb (a b : Mutex) : bool :=
  match a, b with
  | intrinsics_mutex_, intrinsics_mutex_ => true
  | matcher_mutex_, matcher_mutex_ => true
  | _, _ => false
  end.

(** One event against the lock that is held: a lock is taken only when none
    is held and released only by its holder, the matcher is given an image
    only under its lock, and the extractor and the batch matching run only
    when no lock is held. [None] is a violation. *)
Definition lock_step (held : option Mutex) (e : Event)
  : option (option Mutex) :=
  match e, held with
  | Log _ _, _ => Some held
  | Lock m, None => Some (Some m)
  | Lock _, Some _ => None
  | Unlock m, Some m' => if mutex_eqb m m' then Some None else None
  | Unlock _, None => None
  | CallMatcherAddImage _, Some matcher_mutex_ => Some held
  | CallMatcherAddImage _, _ => None
  | CallDetectAndExtractDescriptors _ _, None => Some held
  | CallDetectAndExtractDescriptors _ _, Some _ => None
  | CallMatchImages, None => Some held
  | CallMatchImages, Some _ => None
  end.

Fixpoint lock_run (held : option Mutex) (l : list Event)
  : option (option Mutex) :=
  match l with
  | [] => Some held
  | e :: rest =>
      match lock_step held e with
      | Some held' => lock_run held' rest
      | None => None
      end
  end.

(** A trace that keeps the lock discipline and ends with no lock held. *)
Definition disciplined (l : list Event) : Prop :=
  lock_run None l = Some None.

Definition is_matching (e : Event) : bool :=
  match e with CallMatchImages => true | _ => false end.

(** From [s] to [s'] the trace grows by [l] and the matcher receives the
    registrations of [l], in order. *)
Definition grows (s s' : State) (l : list Event) : Prop :=
  events s' = (events s ++ l)%list /\
  matcher_ s' = (matcher_ s ++ registrations_in l)%list.

Section Readings.
Context `{Environment}.
Variable options_ : Options.

(** The loop of [SetPairsToMatch]: [image_pairs] is the vector built so far.
    The result is the vector handed to [matcher_->SetImagePairsToMatch]. *)
Fixpoint convert_pairs (pairs_to_match image_pairs : list (string * string))
  : Result (list (string * string)) :=
  match pairs_to_match with
  | [] => Ok image_pairs
  | pair_to_match :: rest =>
      match GetFilenameFromFilepath (fst pair_to_match) true with
      | None => Fatal "GetFilenameFromFilepath"
      | Some image1_filename =>
          match GetFilenameFromFilepath (snd pair_to_match) true with
          | None => Fatal "GetFilenameFromFilepath"
          | Some image2_filename =>
              convert_pairs rest
                (image_pairs ++ [(image1_filename, image2_filename)])
          end
      end
  end.

Definition SetPairsToMatch (pairs_to_match : list (string * string))
  : Result (list (string * string)) :=
  convert_pairs pairs_to_match [].

(** The stored prior of an image, as [ProcessImage] reads it. *)
Definition stored_prior (s : State) (image_filepath : string)
  : CameraIntrinsicsPrior :=
  FindWithDefault (intrinsics_ s) image_filepath default_prior.

(** The registered images whose file exists: the submitted ones. *)
Definition submitted (image_filepaths : list string) : list string :=
  List.filter FileExists image_filepaths.

(** An event a task for [image_filepath] may produce: it extracts from that
    image only, registers it under its file name with its resolved prior, and
    never starts the batch matching. *)
Definition task_event (s : State) (image_filepath : string) (e : Event)
  : Prop :=
  match e with
  | CallDetectAndExtractDescriptors p _ => p = image_filepath
  | CallMatcherAddImage r =>
      GetFilenameFromFilepath image_filepath true = Some (registered_name r) /\
      registered_prior r =
        resolved_prior options_ image_filepath (stored_prior s image_filepath)
  | CallMatchImages => False
  | _ => True
  end.

(** The part of the state a task for [image_filepath] reads: the stored prior
    and the mask of the image. *)
Definition same_input (image_filepath : string) (s0 s : State) : Prop :=
  intrinsics_ s !! image_filepath = intrinsics_ s0 !! image_filepath /\
  image_masks_ s = image_masks_ s0.

(** The registrations [registrations] are those of distinct entries of
    [image_filepaths], each under the file name of its entry: some
    sub-multiset of the entries lines up with them one to one. *)
Definition one_per_image (image_filepaths : list string)
    (registrations : list Registration) : Prop :=
  exists paths,
    paths ⊆+ image_filepaths /\
    Forall2 (fun p r => GetFilenameFromFilepath p true =
                        Some (registered_name r))
            paths registrations.

(** What the tasks of a run may do to the collaborators. *)
Definition collaborators_see (image_filepaths : list string) (l : list Event)
  : Prop :=
  disciplined l /\
  existsb is_matching l = false /\
  Forall (fun p => p ∈ submitted image_filepaths) (extractions_in l) /\
  Forall (fun r => exists p, p ∈ submitted image_filepaths /\
                             GetFilenameFromFilepath p true =
                             Some (registered_name r))
         (registrations_in l) /\
  (length (registrations_in l) <= length (submitted image_filepaths))%nat /\
  extractions_in l ⊆+ submitted image_filepaths /\
  one_per_image (submitted image_filepaths) (registrations_in l).

(** The environment with another EXIF reader and everything else as it is. *)
Definition with_exif_reader
    (exif : string -> CameraIntrinsicsPrior -> bool * CameraIntrinsicsPrior)
  : Environment :=
  {| FileExists := FileExists;
     ExtractEXIFMetadata := exif;
     GetFilenameFromFilepath := GetFilenameFromFilepath;
     AppendTrailingSlashIfNeeded := AppendTrailingSlashIfNeeded;
     FloatImage := FloatImage;
     read_image := read_image;
     Width := Width;
     Height := Height;
     ConvertToGrayscaleImage := ConvertToGrayscaleImage;
     BilinearInterpolate := BilinearInterpolate;
     DetectAndExtractDescriptors := DetectAndExtractDescriptors;
     ImagePairMatch := ImagePairMatch;
     MatchImages := MatchImages |}.

End Readings.

End PipelineReadings.

(** * The fisheye camera model *)
Module Fisheye.

(** The slots of [parameters_]. *)
Inductive InternalParametersIndex :=
| FOCAL_LENGTH
| ASPECT_RATIO
| SKEW
| PRINCIPAL_POINT_X
| PRINCIPAL_POINT_Y
| RADIAL_DISTORTION_1
| RADIAL_DISTORTION_2
| RADIAL_DISTORTION_3
| RADIAL_DISTORTION_4.

#[global] Instance InternalParametersIndex_eq_dec
  : EqDecision InternalParametersIndex.
Proof. solve_decision. Defined.

(** [parameters_], a vector with one slot per index. *)
Record FisheyeCameraModel := mkFisheye {
  parameters_ : InternalParametersIndex -> float
}.

(** [parameters_[index] = value]. The setters and getters of the base class
    [CameraIntrinsicsModel] are not among the sources; they write and read
    their slot like the accessors of this file do. *)
Definition SetParameter (index : InternalParametersIndex) (value : float)
    (c : FisheyeCameraModel) : FisheyeCameraModel :=
  mkFisheye (fun j => if decide (j = index) then value else parameters_ c j).

Definition SetFocalLength (focal_length : float) :=
  SetParameter FOCAL_LENGTH focal_length.

Definition SetPrincipalPoint (x y : float) (c : FisheyeCameraModel)
  : FisheyeCameraModel :=
  SetParameter PRINCIPAL_POINT_Y y (SetParameter PRINCIPAL_POINT_X x c).

Definition FocalLength (c : FisheyeCameraModel) : float :=
  parameters_ c FOCAL_LENGTH.
Definition PrincipalPointX (c : FisheyeCameraModel) : float :=
  parameters_ c PRINCIPAL_POINT_X.
Definition PrincipalPointY (c : FisheyeCameraModel) : float :=
  parameters_ c PRINCIPAL_POINT_Y.

Definition SetAspectRatio (aspect_ratio : float) :=
  SetParameter ASPECT_RATIO aspect_ratio.
Definition AspectRatio (c : FisheyeCameraModel) : float :=
  parameters_ c ASPECT_RATIO.

Definition SetSkew (skew : float) := SetParameter SKEW skew.
Definition Skew (c : FisheyeCameraModel) : float := parameters_ c SKEW.

Definition SetRadialDistortion (r1 r2 r3 r4 : float) (c : FisheyeCameraModel)
  : FisheyeCameraModel :=
  SetParameter RADIAL_DISTORTION_4 r4
    (SetParameter RADIAL_DISTORTION_3 r3
       (SetParameter RADIAL_DISTORTION_2 r2
          (SetParameter RADIAL_DISTORTION_1 r1 c))).

Definition RadialDistortion1 (c : FisheyeCameraModel) : float :=
  parameters_ c RADIAL_DISTORTION_1.
Definition RadialDistortion2 (c : FisheyeCameraModel) : float :=
  parameters_ c RADIAL_DISTORTION_2.
Definition RadialDistortion3 (c : FisheyeCameraModel) : float :=
  parameters_ c RADIAL_DISTORTION_3.
Definition RadialDistortion4 (c : FisheyeCameraModel) : float :=
  parameters_ c RADIAL_DISTORTION_4.

(** The constructor: the resized vector with its defaults. *)
Definition new_fisheye : FisheyeCameraModel :=
  SetParameter RADIAL_DISTORTION_4 0
    (SetParameter RADIAL_DISTORTION_3 0
       (SetParameter RADIAL_DISTORTION_2 0
          (SetParameter RADIAL_DISTORTION_1 0
             (SetParameter SKEW 0
                (SetParameter ASPECT_RATIO 1
                   (SetPrincipalPoint 0 0
                      (SetFocalLength 1 (mkFisheye (fun _ => 0%float))))))))).

(** The C++ literal [0.4] as a [double]. *)
Definition kFocalLengthScaleFactor : float := 0x1.999999999999ap-2%float.

Definition dimensions_known (prior : CameraIntrinsicsPrior) : bool :=
  negb (image_width prior =? 0) && negb (image_height prior =? 0).

Definition SetFromCameraIntrinsicsPriors (prior : CameraIntrinsicsPrior)
    (c : FisheyeCameraModel) : FisheyeCameraModel :=
  let c :=
    if is_set (focal_length prior)
    then SetFocalLength (value_at (focal_length prior) 0) c
    else if dimensions_known prior
    then SetFocalLength
           (kFocalLengthScaleFactor *
            double_of_int (Z.max (image_width prior) (image_height prior)))%float
           c
    else c in
  let c :=
    if is_set (principal_point prior)
    then SetPrincipalPoint (value_at (principal_point prior) 0)
                           (value_at (principal_point prior) 1) c
    else if dimensions_known prior
    then SetPrincipalPoint (double_of_int (image_width prior) / 2)%float
                           (double_of_int (image_height prior) / 2)%float c
    else c in
  let c :=
    if is_set (aspect_ratio prior)
    then SetParameter ASPECT_RATIO (value_at (aspect_ratio prior) 0) c
    else c in
  let c :=
    if is_set (skew prior)
    then SetParameter SKEW (value_at (skew prior) 0) c
    else c in
  if is_set (radial_distortion prior)
  then SetParameter RADIAL_DISTORTION_4 (value_at (radial_distortion prior) 3)
         (SetParameter RADIAL_DISTORTION_3 (value_at (radial_distortion prior) 2)
            (SetParameter RADIAL_DISTORTION_2
               (value_at (radial_distortion prior) 1)
               (SetParameter RADIAL_DISTORTION_1
                  (value_at (radial_distortion prior) 0) c)))
  else c.

(** A prior that is set, with the given values in its first slots. *)
Definition set_values (p : Prior) (values : list float) : Prior :=
  mkPrior true (values ++ drop (length values) (value p)).

(** The prior read back from the camera, without its model-type string
    (the record of the prior has no such field): all five fields are set,
    the dimensions stay those of a default-constructed prior. *)
Definition CameraIntrinsicsPriorFromIntrinsics (c : FisheyeCameraModel)
  : CameraIntrinsicsPrior :=
  let prior := default_prior in
  mkCameraIntrinsicsPrior
    (set_values (focal_length prior) [FocalLength c])
    (set_values (principal_point prior) [PrincipalPointX c; PrincipalPointY c])
    (set_values (aspect_ratio prior) [AspectRatio c])
    (set_values (skew prior) [Skew c])
    (set_values (radial_distortion prior)
       [RadialDistortion1 c; RadialDistortion2 c; RadialDistortion3 c;
        RadialDistortion4 c])
    (image_width prior) (image_height prior).

End Fisheye.

(** * More concrete inputs *)
Module MoreExamples.

Import TwoView Pipeline Examples.
Local Open Scope string_scope.

(** A disk whose EXIF reader fails on every image. *)
Definition failing_exif_env (d : Disk) : Environment :=
  {| FileExists := @FileExists (env_of d);
     ExtractEXIFMetadata := fun _ prior => (false, prior);
     GetFilenameFromFilepath := @GetFilenameFromFilepath (env_of d);
     AppendTrailingSlashIfNeeded := @AppendTrailingSlashIfNeeded (env_of d);
     FloatImage := @FloatImage (env_of d);
     read_image := @read_image (env_of d);
     Width := @Width (env_of d);
     Height := @Height (env_of d);
     ConvertToGrayscaleImage := @ConvertToGrayscaleImage (env_of d);
     BilinearInterpolate := @BilinearInterpolate (env_of d);
     DetectAndExtractDescriptors := @DetectAndExtractDescriptors (env_of d);
     ImagePairMatch := @ImagePairMatch (env_of d);
     MatchImages := @MatchImages (env_of d) |}.

(** A disk whose masks are 320 by 240 while the images are 640 by 480. *)
Definition small_mask_env (d : Disk) : Environment :=
  {| FileExists := @FileExists (env_of d);
     ExtractEXIFMetadata := @ExtractEXIFMetadata (env_of d);
     GetFilenameFromFilepath := @GetFilenameFromFilepath (env_of d);
     AppendTrailingSlashIfNeeded := @AppendTrailingSlashIfNeeded (env_of d);
     FloatImage := string;
     read_image := fun path => path;
     Width := fun image => if String.prefix "mask/" image then 320 else 640;
     Height := fun image => if String.prefix "mask/" image then 240 else 480;
     ConvertToGrayscaleImage := fun image => image;
     BilinearInterpolate := fun _ _ _ _ => 1%float;
     DetectAndExtractDescriptors := @DetectAndExtractDescriptors (env_of d);
     ImagePairMatch := @ImagePairMatch (env_of d);
     MatchImages := @MatchImages (env_of d) |}.

(** The first image has a file, the second has none but was registered with
    a prior. *)
Definition missing_with_prior : State :=
  registered [AddImage "img/a.jpg";
              AddImageWithPrior "img/c.jpg" calibrated_prior].

(** A fisheye camera with every parameter different from its default. *)
Definition fisheye0 : Fisheye.FisheyeCameraModel :=
  Fisheye.SetRadialDistortion 0.5 0.25 0.125 0.0625
    (Fisheye.SetSkew 2
       (Fisheye.SetAspectRatio 1.5
          (Fisheye.SetPrincipalPoint 320 240
             (Fisheye.SetFocalLength 800 Fisheye.new_fisheye)))).

(** A prior with a focal length and an aspect ratio only. *)
Definition partial_prior : CameraIntrinsicsPrior :=
  mkCameraIntrinsicsPrior (focal 1024) (unset_prior 2) (mkPrior true [1.25%float])
                          (unset_prior 1) (unset_prior 4) 0 0.

(** A prior with a principal point and the image dimensions, but no focal
    length. *)
Definition centred_prior : CameraIntrinsicsPrior :=
  mkCameraIntrinsicsPrior (unset_prior 1) (mkPrior true [512; 384]%float)
                          (unset_prior 1) (unset_prior 1) (unset_prior 4)
                          1024 768.

(** The first image is registered with that prior, the second with none. *)
Definition one_centred : State :=
  registered [AddImageWithPrior "img/a.jpg" centred_prior;
              AddImage "img/b.jpg"].

(** ** A matcher that looks at the features

    Two registered images match when they have a descriptor in common; an
    image registered without features matches nothing. *)
Definition descriptor_eqb (a b : Descriptor) : bool :=
  (length a =? length b)%nat &&
  forallb (fun xy => (fst xy =? snd xy)%float) (zip a b).

Definition descriptors_of (r : Registration) : list Descriptor :=
  match r with
  | AddImageCached _ _ => []
  | AddImageWithFeatures _ _ descriptors _ => descriptors
  end.

Definition share_descriptor (r1 r2 : Registration) : bool :=
  existsb (fun d1 => existsb (descriptor_eqb d1) (descriptors_of r2))
          (descriptors_of r1).

Fixpoint match_by_descriptor (registrations : list Registration)
  : list (string * string) :=
  match registrations with
  | [] => []
  | r :: rest =>
      (map (fun r' => (registered_name r, registered_name r'))
           (List.filter (share_descriptor r) rest)
       ++ match_by_descriptor rest)%list
  end.

(** The disk with that matcher; [leftover] tells what the extractor does to
    its output vectors on an image it fails on: with [true] it has already
    written the detected features when it reports the failure, with [false]
    it leaves the vectors as it got them. *)
Definition feature_matcher_env (leftover : bool) (d : Disk) : Environment :=
  {| FileExists := @FileExists (env_of d);
     ExtractEXIFMetadata := @ExtractEXIFMetadata (env_of d);
     GetFilenameFromFilepath := @GetFilenameFromFilepath (env_of d);
     AppendTrailingSlashIfNeeded := @AppendTrailingSlashIfNeeded (env_of d);
     FloatImage := string;
     read_image := fun path => path;
     Width := @Width (env_of d);
     Height := @Height (env_of d);
     ConvertToGrayscaleImage := fun image => image;
     BilinearInterpolate := @BilinearInterpolate (env_of d);
     DetectAndExtractDescriptors := fun _ _ image keypoints descriptors =>
       if member image (corrupt d) && negb leftover
       then (false, keypoints, descriptors)
       else (negb (member image (corrupt d)),
             (keypoints ++ (detected d).*1)%list,
             (descriptors ++ (detected d).*2)%list);
     ImagePairMatch := string * string;
     MatchImages := match_by_descriptor |}.

End MoreExamples.

(** * Properties of the two-view estimator *)
Section EstimatorProperties.
Import TwoView.
Context `{CameraModel} `{PyramidModel} `{Solvers}.

Lemma visibility_score_no_inliers intrinsics1 intrinsics2 correspondences :
  ComputeVisibilityScoreOfInliers intrinsics1 intrinsics2 correspondences [] =
  Some (score_without_inliers intrinsics1 intrinsics2).
Proof.
  unfold ComputeVisibilityScoreOfInliers, score_without_inliers,
    dimensions_unknown, kNumPyramidLevels.
  destruct (_ || _); reflexivity.
Qed.

(** Unfolds a call of the estimator and splits on the two focal-length flags
    and on the answer of the solver. *)
Ltac run_estimator intrinsics1 intrinsics2 :=
  unfold EstimateTwoViewInfo, EstimateTwoViewInfoCalibrated,
    EstimateTwoViewInfoUncalibrated, budget_product, focal_product,
    both_calibrated;
  rewrite !visibility_score_no_inliers;
  destruct (is_set (focal_length intrinsics1)),
           (is_set (focal_length intrinsics2)); cbn [andb orb negb xorb];
  match goal with
  | |- context [match ?answer with _ => _ end] =>
      destruct answer as [[? ?]|] eqn:?
  end;
  try match goal with
  | |- context [AngleAxisd ?m] => destruct (AngleAxisd m)
  end;
  cbn [prepend ret twoview_info inlier_indices trace].

(** The estimator always returns: the index vector it reads is the one it
    has just cleared. *)
Lemma EstimateTwoViewInfo_returns options intrinsics1 intrinsics2
    correspondences info indices :
  is_Some (EstimateTwoViewInfo options intrinsics1 intrinsics2
                               correspondences info indices).
Proof.
  run_estimator intrinsics1 intrinsics2; eexists; reflexivity.
Qed.

(** The trace records what the solvers answered. *)
Lemma EstimateTwoViewInfo_faithful options intrinsics1 intrinsics2
    correspondences info indices o :
  EstimateTwoViewInfo options intrinsics1 intrinsics2
                      correspondences info indices = Some o ->
  Forall faithful (trace o).
Proof.
  run_estimator intrinsics1 intrinsics2; intros [= <-];
    cbn [trace]; repeat constructor; assumption.
Qed.

(** C1 (as the code has it): the estimator always returns, and when it
    reports success it hands back the inliers of the solver and counts them
    as verified matches, but the visibility score it stores is the score of
    an empty index vector: [0] when a dimension is unknown, otherwise the
    summed score of two 6-level pyramids into which nothing was inserted. The
    score is computed from the cleared [inlier_indices] before the inliers of
    the solver are copied into it, so it does not depend on them. *)
Theorem visibility_score_ignores_inliers options intrinsics1 intrinsics2
    correspondences info indices :
  exists o,
    EstimateTwoViewInfo options intrinsics1 intrinsics2
                        correspondences info indices = Some o /\
    (ret o = true ->
     flat_map reported_inliers (trace o) = [inlier_indices o] /\
     num_verified_matches (twoview_info o) =
       to_int (Z.of_nat (length (inlier_indices o))) /\
     visibility_score (twoview_info o) =
       score_without_inliers intrinsics1 intrinsics2).
Proof.
  run_estimator intrinsics1 intrinsics2; eexists; (split; [reflexivity|]);
    cbn; intros; (discriminate || (repeat split)).
Qed.

(** C2: the estimator always returns, its trace holds what the solver it
    called really answered, and when that solver reported failure the
    estimator returns [false], hands back the two-view record exactly as it
    received it, and the inlier indices are empty. *)
Theorem failure_leaves_record_unwritten options intrinsics1 intrinsics2
    correspondences info indices :
  exists o,
    EstimateTwoViewInfo options intrinsics1 intrinsics2
                        correspondences info indices = Some o /\
    Forall faithful (trace o) /\
    (existsb is_failed_call (trace o) = true ->
     ret o = false /\ twoview_info o = info /\ inlier_indices o = []).
Proof.
  run_estimator intrinsics1 intrinsics2; eexists; (split; [reflexivity|]);
    (split; [repeat constructor; assumption|]);
    cbn; intros; (discriminate || auto).
Qed.

(** C3: the estimator always returns and its trace holds what the solver
    really answered; the calibrated solver is called exactly when both focal
    lengths are set, the uncalibrated solver exactly when they are not both
    set (neither, or only one); when
    exactly one is set and the call succeeds, the two focal lengths of the
    record are the two recovered by the uncalibrated solver. *)
Theorem branch_selection options intrinsics1 intrinsics2
    correspondences info indices :
  exists o,
    EstimateTwoViewInfo options intrinsics1 intrinsics2
                        correspondences info indices = Some o /\
    Forall faithful (trace o) /\
    existsb is_calibrated_call (trace o) =
      both_calibrated intrinsics1 intrinsics2 /\
    existsb is_uncalibrated_call (trace o) =
      negb (both_calibrated intrinsics1 intrinsics2) /\
    (xorb (is_set (focal_length intrinsics1))
          (is_set (focal_length intrinsics2)) = true ->
     ret o = true ->
     flat_map recovered_focal_lengths (trace o) =
     [(focal_length_1 (twoview_info o), focal_length_2 (twoview_info o))]).
Proof.
  run_estimator intrinsics1 intrinsics2; eexists; (split; [reflexivity|]);
    (split; [repeat constructor; assumption|]);
    cbn; repeat split; intros; (discriminate || reflexivity).
Qed.

(** C4: the estimator calls a solver once; the failure probability it passes
    is one minus the expected confidence, and the error threshold is the
    product of the two resolution-scaled budgets, divided by the product of
    the two focal lengths in the calibrated branch only. *)
Theorem ransac_threshold options intrinsics1 intrinsics2
    correspondences info indices :
  exists o p,
    EstimateTwoViewInfo options intrinsics1 intrinsics2
                        correspondences info indices = Some o /\
    flat_map solver_parameters (trace o) = [p] /\
    failure_probability p = (1 - expected_ransac_confidence options)%float /\
    error_thresh p =
      if both_calibrated intrinsics1 intrinsics2
      then (budget_product options intrinsics1 intrinsics2 /
            focal_product intrinsics1 intrinsics2)%float
      else budget_product options intrinsics1 intrinsics2.
Proof.
  run_estimator intrinsics1 intrinsics2; do 2 eexists;
    (split; [reflexivity|]); cbn; repeat split.
Qed.

(** C10: when at least one focal length is not set, the correspondences
    handed to the solver are the input correspondences mapped through two
    cameras whose focal lengths have both been reset to [1.0], also on the
    side whose focal length is set. *)
Theorem normalization_resets_both_focal_lengths options intrinsics1 intrinsics2
    correspondences info indices :
  both_calibrated intrinsics1 intrinsics2 = false ->
  exists o camera1 camera2,
    EstimateTwoViewInfo options intrinsics1 intrinsics2
                        correspondences info indices = Some o /\
    camera1 = SetFocalLength 1%float
                (SetFromCameraIntrinsicsPriors intrinsics1 new_camera) /\
    camera2 = SetFocalLength 1%float
                (SetFromCameraIntrinsicsPriors intrinsics2 new_camera) /\
    FocalLength camera1 = 1%float /\ FocalLength camera2 = 1%float /\
    NormalizeFeatures intrinsics1 intrinsics2 correspondences =
      map (normalize_with camera1 camera2) correspondences /\
    flat_map solver_inputs (trace o) =
      [map (normalize_with camera1 camera2) correspondences].
Proof.
  intros Hmixed.
  assert (Hn : NormalizeFeatures intrinsics1 intrinsics2 correspondences =
               map (normalize_with
                      (SetFocalLength 1%float
                         (SetFromCameraIntrinsicsPriors intrinsics1 new_camera))
                      (SetFocalLength 1%float
                         (SetFromCameraIntrinsicsPriors intrinsics2 new_camera)))
                   correspondences).
  { unfold NormalizeFeatures, normalization_cameras.
    unfold both_calibrated in Hmixed.
    destruct (is_set (focal_length intrinsics1)),
             (is_set (focal_length intrinsics2));
      try discriminate Hmixed; reflexivity. }
  revert Hmixed.
  run_estimator intrinsics1 intrinsics2; intros Hmixed;
    try discriminate Hmixed;
    do 3 eexists; (split; [reflexivity|]);
    (split; [reflexivity|]); (split; [reflexivity|]);
    rewrite !FocalLength_SetFocalLength, <- Hn; cbn; repeat split.
Qed.

End EstimatorProperties.

(** ** The estimator on concrete inputs *)
Section EstimatorRuns.
Import TwoView Examples.

(** The solver reports three inliers for a pair of images whose dimensions
    are unknown: the call succeeds, hands back the three indices and counts
    three verified matches, and the visibility score is [0]. *)
Lemma visibility_score_three_inliers :
  exists o,
    @EstimateTwoViewInfo pinhole counting_pyramid succeeding_solvers options0
      calibrated_prior_no_size calibrated_prior_no_size correspondences0
      untouched [] = Some o /\
    ret o = true /\
    inlier_indices o = [0; 1; 2] /\
    num_verified_matches (twoview_info o) = 3 /\
    visibility_score (twoview_info o) = 0.
Proof.
  destruct (@visibility_score_ignores_inliers pinhole counting_pyramid
              succeeding_solvers options0 calibrated_prior_no_size
              calibrated_prior_no_size correspondences0 untouched [])
    as [o [Ho Hscore]].
  exists o. split; [exact Ho|].
  assert (Hret : ret o = true /\ inlier_indices o = [0; 1; 2] /\
                 num_verified_matches (twoview_info o) = 3).
  { vm_compute in Ho. injection Ho as <-. repeat split. }
  destruct Hret as (Hret & Hin & Hnum).
  destruct (Hscore Hret) as (_ & _ & Hzero).
  split; [exact Hret|]. split; [exact Hin|]. split; [exact Hnum|].
  rewrite Hzero. reflexivity.
Defined.

(** With known dimensions the score is that of two empty pyramids: [0] for
    the counting pyramid, which would score [6] had the three inliers been
    inserted into both. *)
Example visibility_score_known_dimensions :
  (visibility_score ∘ twoview_info) <$>
    @EstimateTwoViewInfo pinhole counting_pyramid succeeding_solvers options0
      calibrated_prior calibrated_prior correspondences0 untouched [] = Some 0 /\
  @ComputeVisibilityScoreOfInliers counting_pyramid calibrated_prior
    calibrated_prior correspondences0 [0; 1; 2] = Some 6.
Proof. split; vm_compute; reflexivity. Qed.

Lemma failure_leaves_record_unwritten_run :
  exists o,
    @EstimateTwoViewInfo pinhole counting_pyramid failing_solvers options0
      calibrated_prior uncalibrated_prior correspondences0 untouched [7; 8]
    = Some o /\
    ret o = false /\ twoview_info o = untouched /\ inlier_indices o = [].
Proof.
  destruct (@failure_leaves_record_unwritten pinhole counting_pyramid
              failing_solvers options0 calibrated_prior uncalibrated_prior
              correspondences0 untouched [7; 8]) as (o & Ho & _ & Hfail).
  exists o. split; [exact Ho|]. apply Hfail.
  vm_compute in Ho. injection Ho as <-. reflexivity.
Defined.

Lemma branch_selection_mixed_run :
  exists o,
    @EstimateTwoViewInfo pinhole counting_pyramid succeeding_solvers options0
      calibrated_prior uncalibrated_prior correspondences0 untouched []
    = Some o /\
    existsb is_calibrated_call (trace o) = false /\
    existsb is_uncalibrated_call (trace o) = true /\
    focal_length_1 (twoview_info o) = 800%float /\
    focal_length_2 (twoview_info o) = 900%float.
Proof.
  destruct (@branch_selection pinhole counting_pyramid succeeding_solvers
              options0 calibrated_prior uncalibrated_prior correspondences0
              untouched []) as [o (Ho & _ & Hcal & Huncal & Hfocal)].
  exists o. split; [exact Ho|].
  split; [exact Hcal|]. split; [exact Huncal|].
  assert (Hret : ret o = true /\
                 flat_map recovered_focal_lengths (trace o) =
                 [(800%float, 900%float)]).
  { vm_compute in Ho. injection Ho as <-. split; reflexivity. }
  destruct Hret as [Hret Hrec].
  specialize (Hfocal eq_refl Hret). rewrite Hrec in Hfocal.
  injection Hfocal as <- <-. split; reflexivity.
Defined.

Lemma ransac_threshold_run :
  exists o p,
    @EstimateTwoViewInfo pinhole counting_pyramid succeeding_solvers options0
      calibrated_prior calibrated_prior correspondences0 untouched []
    = Some o /\
    flat_map solver_parameters (trace o) = [p] /\
    failure_probability p = 0.25%float /\
    error_thresh p = 0x1p-14%float.
Proof.
  destruct (@ransac_threshold pinhole counting_pyramid succeeding_solvers
              options0 calibrated_prior calibrated_prior correspondences0
              untouched []) as (o & p & Ho & Hp & Hprob & Hthresh).
  exists o, p. split; [exact Ho|]. split; [exact Hp|]. split.
  - rewrite Hprob. vm_compute. reflexivity.
  - rewrite Hthresh. vm_compute. reflexivity.
Defined.

(** One focal length set (1024) and one not: the correspondences are only
    recentred by the principal points (1024, 512) and (512, 256), on both
    sides. *)
Lemma normalization_mixed_run :
  both_calibrated calibrated_prior uncalibrated_prior = false /\
  exists o,
    @EstimateTwoViewInfo pinhole counting_pyramid succeeding_solvers options0
      calibrated_prior uncalibrated_prior correspondences0 untouched []
    = Some o /\
    flat_map solver_inputs (trace o) =
    [[corr (-1014) (-492) (-500) (-235); corr (-724) (-472) (-202) (-212);
      corr (-524) 88 (-7) 334]].
Proof.
  split; [reflexivity|].
  destruct (@normalization_resets_both_focal_lengths pinhole counting_pyramid
              succeeding_solvers options0 calibrated_prior uncalibrated_prior
              correspondences0 untouched [] eq_refl)
    as (o & c1 & c2 & Ho & -> & -> & _ & _ & _ & Hin).
  exists o. split; [exact Ho|]. rewrite Hin. vm_compute. reflexivity.
Defined.

End EstimatorRuns.

(** * Properties of the pipeline *)
Section PipelineProperties.
Import Pipeline.
Context `{Environment}.
Variable options_ : Options.

(** What the mask loop has done once it has handled the positions below [n]
    from the top: the pairs before [n] are filtered, the rest is as it was. *)
Lemma zip_delete {A B} (i : nat) (l : list A) (k : list B) :
  length l = length k ->
  zip (delete i l) (delete i k) = delete i (zip l k).
Proof.
  intros Hlen. rewrite !delete_take_drop.
  rewrite zip_with_app by (rewrite !length_take; lia).
  rewrite zip_with_take, zip_with_drop. reflexivity.
Qed.

Lemma survivors_app image_mask (l k : list (Keypoint * Descriptor)) :
  survivors image_mask (l ++ k) = survivors image_mask l ++ survivors image_mask k.
Proof. apply List.filter_app. Qed.

Lemma survivors_one image_mask k d :
  survivors image_mask [(k, d)] =
  if masked_out image_mask k then [] else [(k, d)].
Proof.
  unfold survivors. cbn [List.filter fst].
  destruct (masked_out image_mask k); reflexivity.
Qed.

Lemma mask_loop_filters image_mask (n : nat) :
  forall (keypoints : list Keypoint) (descriptors : list Descriptor),
    length keypoints = length descriptors ->
    (n <= length keypoints)%nat ->
    let features := zip keypoints descriptors in
    let kept := survivors image_mask (take n features) ++ drop n features in
    mask_loop image_mask n keypoints descriptors = Ok (kept.*1, kept.*2).
Proof.
  induction n as [|i IH]; intros keypoints descriptors Hlen Hn; cbn zeta.
  - rewrite take_0, drop_0. unfold survivors. cbn [List.filter app mask_loop].
    rewrite fst_zip, snd_zip by lia. reflexivity.
  - destruct (lookup_lt_is_Some_2 keypoints i) as [k Hk]; [lia|].
    destruct (lookup_lt_is_Some_2 descriptors i) as [d Hd]; [lia|].
    assert (Hkd : zip keypoints descriptors !! i = Some (k, d)).
    { apply lookup_zip_with_Some. eauto. }
    cbn [mask_loop]. rewrite Hk.
    rewrite (take_S_r _ _ _ Hkd), survivors_app, survivors_one.
    destruct (masked_out image_mask k) eqn:Hmask.
    + unfold erase. rewrite !decide_True by lia.
      rewrite IH by (rewrite ?length_delete; eauto; lia).
      rewrite zip_delete by assumption.
      rewrite delete_take_drop.
      rewrite take_app_length' by (rewrite length_take, length_zip_with; lia).
      rewrite drop_app_length' by (rewrite length_take, length_zip_with; lia).
      rewrite app_nil_r. reflexivity.
    + rewrite IH by (eauto; lia).
      rewrite (drop_S _ _ _ Hkd).
      rewrite <- !app_assoc. reflexivity.
Qed.

Lemma resize_take {A} (n : nat) (d : A) (v : list A) :
  (n <= length v)%nat -> resize n d v = take n v.
Proof.
  intros Hn. unfold resize. replace (n - length v)%nat with 0%nat by lia.
  cbn. apply app_nil_r.
Qed.


Lemma survivors_sublist image_mask features :
  sublist (survivors image_mask features) features.
Proof.
  induction features as [|kd features IH]; [constructor|].
  unfold survivors in *. cbn [List.filter].
  destruct (negb _); constructor; exact IH.
Qed.


(** *** [ProcessImage] *)

Lemma resolve_calibration_ok image_filepath stored s :
  (is_set (focal_length stored) = false ->
   fst (ExtractEXIFMetadata image_filepath stored) = true) ->
  resolve_calibration options_ image_filepath stored s =
  Ok (resolved_prior options_ image_filepath stored,
      after_resolution options_ image_filepath stored s).
Proof.
  intros Hexif.
  unfold resolve_calibration, after_resolution, resolved_prior.
  destruct (is_set (focal_length stored)); [reflexivity|].
  specialize (Hexif eq_refl).
  destruct (ExtractEXIFMetadata image_filepath stored) as [ok read].
  cbn in Hexif. subst ok. cbn. rewrite <- app_assoc. reflexivity.
Qed.

(** A resolved prior that passes the policy test has a focal length. *)
Lemma resolved_prior_calibrated image_filepath stored :
  excluded_by_policy options_ (resolved_prior options_ image_filepath stored)
  = false ->
  is_set (focal_length (resolved_prior options_ image_filepath stored)) = true.
Proof.
  unfold excluded_by_policy, resolved_prior, heuristic_focal_length.
  destruct (is_set (focal_length stored)) eqn:Hset; [intros _; exact Hset|].
  destruct (only_calibrated_views options_); cbn [andb negb].
  - intros Hpol. apply negb_false_iff in Hpol. exact Hpol.
  - intros _.
    destruct (is_set (focal_length (ExtractEXIFMetadata image_filepath stored).2))
      eqn:Hexif; [exact Hexif|reflexivity].
Qed.

(** C6 (amended): for a submitted image whose calibration resolves and passes
    the policy test, when out-of-core matching is enabled and the cache file
    of the image exists, [ProcessImage] calls no extractor, leaves the
    resolved prior (which has a focal length) in the shared map when the
    stored one had no focal length, and registers the file name with the
    resolved prior at the matcher between taking and releasing the matcher's
    lock. *)
Theorem cache_hit_skips_extraction s i image_filepath image_filename :
  let stored := FindWithDefault (intrinsics_ s) image_filepath default_prior in
  let resolved := resolved_prior options_ image_filepath stored in
  image_filepaths_ s !! i = Some image_filepath ->
  (is_set (focal_length stored) = false ->
   fst (ExtractEXIFMetadata image_filepath stored) = true) ->
  excluded_by_policy options_ resolved = false ->
  GetFilenameFromFilepath image_filepath true = Some image_filename ->
  match_out_of_core (feature_matcher_options options_) = true ->
  FileExists (feature_filepath options_ image_filename) = true ->
  exists s',
    ProcessImage options_ i s = Ok (tt, s') /\
    existsb is_extraction (new_events s s') = false /\
    is_set (focal_length resolved) = true /\
    intrinsics_ s' =
      (if is_set (focal_length stored) then intrinsics_ s
       else <[image_filepath := resolved]> (intrinsics_ s)) /\
    matcher_ s' = matcher_ s ++ [AddImageCached image_filename resolved] /\
    exists before,
      new_events s s' =
      before ++ [Lock matcher_mutex_;
                 CallMatcherAddImage (AddImageCached image_filename resolved);
                 Unlock matcher_mutex_].
Proof.
  intros stored resolved Hpath Hexif Hpolicy Hname Hooc Hcache.
  unfold ProcessImage, mbind at 1, get. rewrite Hpath.
  unfold mbind at 1. fold stored.
  rewrite (resolve_calibration_ok _ _ _ Hexif). fold resolved.
  unfold excluded_by_policy in Hpolicy. rewrite Hpolicy, Hname, Hooc, Hcache.
  cbn [andb]. unfold mbind, emit, matcher_AddImage.
  eexists. split; [reflexivity|].
  unfold new_events, after_resolution. fold stored resolved.
  cbn [events intrinsics_ matcher_].
  split; [|split; [apply resolved_prior_calibrated; exact Hpolicy|]].
  - destruct (is_set (focal_length stored)); cbn [events];
      rewrite <- ?app_assoc, drop_app_length; reflexivity.
  - destruct (is_set (focal_length stored)); cbn [events intrinsics_ matcher_];
      (split; [reflexivity|]); (split; [reflexivity|]);
      rewrite <- ?app_assoc, drop_app_length; cbn [app].
    + exists [Log "is initialized with the focal length" image_filepath].
      reflexivity.
    + exists [Lock intrinsics_mutex_; Unlock intrinsics_mutex_;
              Log "is initialized with the focal length" image_filepath].
      reflexivity.
Qed.


(** *** What a task may change *)

Lemma members_kept_refl s : members_kept s s.
Proof. repeat split. Qed.

Lemma members_kept_trans s1 s2 s3 :
  members_kept s1 s2 -> members_kept s2 s3 -> members_kept s1 s3.
Proof.
  intros (Hp & Hi & Hm) (Hp' & Hi' & Hm').
  repeat split; etrans; eassumption.
Qed.

Lemma emit_kept e s u s' : emit e s = Ok (u, s') -> members_kept s s'.
Proof. intros [= _ <-]. repeat split. Qed.

Lemma matcher_AddImage_kept r s u s' :
  matcher_AddImage r s = Ok (u, s') -> members_kept s s'.
Proof. intros [= _ <-]. repeat split. Qed.

Lemma CHECK_kept c msg s u s' : CHECK c msg s = Ok (u, s') -> s' = s.
Proof. destruct c; unfold CHECK, mret, fatal; congruence. Qed.

Lemma lift_kept {A} (r : Result A) s a s' : lift r s = Ok (a, s') -> s' = s.
Proof. destruct r; unfold lift; congruence. Qed.

(** Splits a hypothesis on a sequence of two computations. *)
Ltac split_bind Hrun :=
  unfold mbind at 1 in Hrun;
  match type of Hrun with
  | match ?m with _ => _ end = _ =>
      let Hstep := fresh "Hstep" in
      destruct m as [[? ?]| |] eqn:Hstep; try discriminate Hrun
  end.

Lemma ExtractFeatures_kept image_filepath imagemask_filepath keypoints
    descriptors s r s' :
  ExtractFeatures options_ image_filepath imagemask_filepath keypoints
                  descriptors s = Ok (r, s') ->
  members_kept s s'.
Proof.
  unfold ExtractFeatures.
  destruct (DetectAndExtractDescriptors _ _ _ _ _) as [[ok kps] descs].
  intros Hrun. split_bind Hrun. apply emit_kept in Hstep.
  eapply members_kept_trans; [exact Hstep|]. clear Hstep.
  destruct ok; cbn [negb] in Hrun.
  - split_bind Hrun.
    assert (Hmask : s1 = s0).
    { destruct (0 <? String.length imagemask_filepath)%nat.
      - split_bind Hstep. apply CHECK_kept in Hstep0. subst.
        apply lift_kept in Hstep. exact Hstep.
      - injection Hstep as _ ->. reflexivity. }
    subst s1. destruct p as [kps' descs'].
    destruct (_ >? _); split_bind Hrun; apply emit_kept in Hstep0;
      injection Hrun as _ <-; exact Hstep0.
  - split_bind Hrun. apply emit_kept in Hstep.
    injection Hrun as _ <-. exact Hstep.
Qed.

Lemma resolve_calibration_inv image_filepath stored s r s' :
  resolve_calibration options_ image_filepath stored s = Ok (r, s') ->
  r = resolved_prior options_ image_filepath stored /\
  s' = after_resolution options_ image_filepath stored s.
Proof.
  intros Hrun.
  destruct (is_set (focal_length stored)) eqn:Hset.
  - rewrite resolve_calibration_ok in Hrun by congruence.
    injection Hrun as <- <-. split; reflexivity.
  - destruct (ExtractEXIFMetadata image_filepath stored) as [ok read] eqn:Hexif.
    destruct ok.
    + rewrite resolve_calibration_ok in Hrun by (rewrite Hexif; reflexivity).
      injection Hrun as <- <-. split; reflexivity.
    + unfold resolve_calibration in Hrun. rewrite Hset, Hexif in Hrun.
      discriminate Hrun.
Qed.

(** A task keeps the registration list and the masks, and writes at most the
    resolved prior of its own image into the shared map. *)
Lemma ProcessImage_effect i s u s' :
  ProcessImage options_ i s = Ok (u, s') ->
  exists image_filepath,
    image_filepaths_ s !! i = Some image_filepath /\
    members_kept
      (after_resolution options_ image_filepath
         (FindWithDefault (intrinsics_ s) image_filepath default_prior) s) s'.
Proof.
  unfold ProcessImage, mbind at 1, get.
  destruct (image_filepaths_ s !! i) as [image_filepath|]; [|discriminate].
  intros Hrun. exists image_filepath. split; [reflexivity|].
  split_bind Hrun. apply resolve_calibration_inv in Hstep as [-> ->].
  set (s1 := after_resolution _ _ _ _) in *.
  destruct (_ && _).
  { apply emit_kept in Hrun. exact Hrun. }
  split_bind Hrun. apply emit_kept in Hstep.
  eapply members_kept_trans; [exact Hstep|]. clear Hstep.
  destruct (GetFilenameFromFilepath image_filepath true); [|discriminate].
  destruct (_ && _).
  - split_bind Hrun. apply emit_kept in Hstep.
    split_bind Hrun. apply matcher_AddImage_kept in Hstep0.
    apply emit_kept in Hrun. eauto using members_kept_trans.
  - split_bind Hrun. apply ExtractFeatures_kept in Hstep.
    destruct p as [kps descs].
    split_bind Hrun. apply emit_kept in Hstep0.
    split_bind Hrun. apply matcher_AddImage_kept in Hstep1.
    apply emit_kept in Hrun. eauto using members_kept_trans.
Qed.

Lemma after_resolution_paths image_filepath stored s :
  image_filepaths_ (after_resolution options_ image_filepath stored s) =
  image_filepaths_ s.
Proof. unfold after_resolution. destruct (is_set _); reflexivity. Qed.

Lemma after_resolution_other image_filepath stored s other :
  other <> image_filepath ->
  intrinsics_ (after_resolution options_ image_filepath stored s) !! other =
  intrinsics_ s !! other.
Proof.
  intros Hne. unfold after_resolution.
  destruct (is_set _); [reflexivity|].
  cbn [intrinsics_]. apply lookup_insert_ne. congruence.
Qed.

Lemma ProcessImage_paths i s u s' :
  ProcessImage options_ i s = Ok (u, s') ->
  image_filepaths_ s' = image_filepaths_ s.
Proof.
  intros Hrun. apply ProcessImage_effect in Hrun as (p & _ & Hp & _ & _).
  rewrite Hp. apply after_resolution_paths.
Qed.

Lemma ProcessImage_other i s u s' image_filepath other :
  ProcessImage options_ i s = Ok (u, s') ->
  image_filepaths_ s !! i = Some image_filepath ->
  other <> image_filepath ->
  intrinsics_ s' !! other = intrinsics_ s !! other.
Proof.
  intros Hrun Hpath Hne.
  apply ProcessImage_effect in Hrun as (p & Hp & _ & Hi & _).
  rewrite Hi. apply after_resolution_other. congruence.
Qed.

(** *** The submission loop *)

Lemma drop_cons_inv {A} (i : nat) (l : list A) x rest :
  drop i l = x :: rest -> l !! i = Some x /\ drop (S i) l = rest.
Proof.
  intros Hdrop. split.
  - replace i with (i + 0)%nat by lia. rewrite <- lookup_drop, Hdrop.
    reflexivity.
  - replace (S i) with (i + 1)%nat by lia. rewrite <- drop_drop, Hdrop.
    reflexivity.
Qed.

(** The submission loop keeps the registration list and never writes the
    prior of an image whose file is missing. *)
Lemma submit_all_effect (image_filepaths : list string) :
  forall i s u s',
    drop i (image_filepaths_ s) = image_filepaths ->
    submit_all options_ i image_filepaths s = Ok (u, s') ->
    image_filepaths_ s' = image_filepaths_ s /\
    forall missing,
      FileExists missing = false ->
      intrinsics_ s' !! missing = intrinsics_ s !! missing.
Proof.
  induction image_filepaths as [|image_filepath rest IH];
    intros i s u s' Hdrop Hrun.
  - injection Hrun as _ <-. split; reflexivity.
  - apply drop_cons_inv in Hdrop as [Hpath Hrest].
    cbn [submit_all] in Hrun. split_bind Hrun.
    destruct (FileExists image_filepath) eqn:Hfile; cbn [negb] in Hstep.
    + pose proof (ProcessImage_paths _ _ _ _ Hstep) as Hpaths.
      apply IH in Hrun as [Hp Hi]; [|rewrite Hpaths; exact Hrest].
      split; [congruence|]. intros missing Hmissing.
      rewrite Hi by exact Hmissing.
      eapply ProcessImage_other; [exact Hstep|exact Hpath|congruence].
    + apply emit_kept in Hstep as (Hpaths & Hsame & _).
      apply IH in Hrun as [Hp Hi]; [|rewrite Hpaths; exact Hrest].
      split; [congruence|]. intros missing Hmissing.
      rewrite Hi by exact Hmissing. rewrite Hsame. reflexivity.
Qed.

Lemma collect_intrinsics_missing (image_filepaths : list string) s missing :
  missing ∈ image_filepaths ->
  intrinsics_ s !! missing = None ->
  forall r, collect_intrinsics image_filepaths s <> Ok r.
Proof.
  induction image_filepaths as [|image_filepath rest IH];
    intros Hin Hnone r Hrun.
  - inversion Hin.
  - cbn [collect_intrinsics] in Hrun. unfold mbind at 1, get in Hrun.
    unfold mbind at 1, FindOrDie in Hrun.
    destruct (intrinsics_ s !! image_filepath) as [prior|] eqn:Hprior;
      [|discriminate Hrun].
    unfold mret at 1 in Hrun.
    apply elem_of_cons in Hin as [->|Hin]; [congruence|].
    split_bind Hrun. eapply IH; eauto.
Qed.

(** C5 (as the code has it): when a registered image has no file and no
    prior in the shared map, [ExtractAndMatchFeatures] never returns: the
    image is skipped by the submission loop, nothing writes its prior, and
    the output loop's [FindOrDie] fails on it. *)
Theorem missing_file_without_prior_aborts s missing :
  missing ∈ image_filepaths_ s ->
  FileExists missing = false ->
  intrinsics_ s !! missing = None ->
  forall r, ExtractAndMatchFeatures options_ s <> Ok r.
Proof.
  intros Hin Hfile Hnone r Hrun.
  unfold ExtractAndMatchFeatures, mbind at 1, get in Hrun.
  split_bind Hrun.
  apply submit_all_effect in Hstep as [Hpaths Hmap]; [|reflexivity].
  split_bind Hrun. apply emit_kept in Hstep as (Hpaths' & Hmap' & _).
  unfold mbind at 1, get in Hrun.
  split_bind Hrun.
  eapply collect_intrinsics_missing; [| |exact Hstep].
  - rewrite Hpaths', Hpaths. exact Hin.
  - rewrite Hmap', Hmap by exact Hfile. exact Hnone.
Qed.

(** *** Set flags *)

Lemma flags_kept_refl p : flags_kept p p.
Proof. repeat split; auto. Qed.

Lemma flags_kept_trans p q r : flags_kept p q -> flags_kept q r -> flags_kept p r.
Proof. unfold flags_kept. intuition auto. Qed.

Lemma never_unset_refl m : never_unset m m.
Proof. intros k p Hk. exists p. split; [exact Hk|apply flags_kept_refl]. Qed.

Lemma never_unset_trans m1 m2 m3 :
  never_unset m1 m2 -> never_unset m2 m3 -> never_unset m1 m3.
Proof.
  intros H12 H23 k p Hk.
  destruct (H12 k p Hk) as (q & Hq & Hpq).
  destruct (H23 k q Hq) as (r & Hr & Hqr).
  exists r. split; [exact Hr|]. eapply flags_kept_trans; eassumption.
Qed.

Lemma heuristic_focal_length_flags p :
  flags_kept p (heuristic_focal_length options_ p).
Proof.
  unfold heuristic_focal_length.
  destruct (_ && _); [|apply flags_kept_refl].
  repeat split; cbn; auto.
Qed.

Section ExifOnlySets.
Hypothesis exif_only_sets :
  forall image_filepath p,
    flags_kept p (snd (ExtractEXIFMetadata image_filepath p)).

Lemma resolved_prior_flags image_filepath p :
  flags_kept p (resolved_prior options_ image_filepath p).
Proof.
  unfold resolved_prior. destruct (is_set (focal_length p));
    [apply flags_kept_refl|].
  eapply flags_kept_trans; [apply exif_only_sets|].
  apply heuristic_focal_length_flags.
Qed.

Lemma after_resolution_flags image_filepath s :
  never_unset (intrinsics_ s)
    (intrinsics_ (after_resolution options_ image_filepath
       (FindWithDefault (intrinsics_ s) image_filepath default_prior) s)).
Proof.
  unfold after_resolution. destruct (is_set _); [apply never_unset_refl|].
  cbn [intrinsics_]. intros k p Hk.
  destruct (decide (k = image_filepath)) as [->|Hne].
  - rewrite lookup_insert_eq. eexists. split; [reflexivity|].
    unfold FindWithDefault. rewrite Hk. cbn. apply resolved_prior_flags.
  - rewrite lookup_insert_ne by congruence. exists p.
    split; [exact Hk|apply flags_kept_refl].
Qed.

Lemma ProcessImage_flags i s u s' :
  ProcessImage options_ i s = Ok (u, s') ->
  never_unset (intrinsics_ s) (intrinsics_ s').
Proof.
  intros Hrun. apply ProcessImage_effect in Hrun as (p & _ & _ & Hi & _).
  rewrite Hi. apply after_resolution_flags.
Qed.

Lemma submit_all_flags (image_filepaths : list string) :
  forall i s u s',
    submit_all options_ i image_filepaths s = Ok (u, s') ->
    never_unset (intrinsics_ s) (intrinsics_ s').
Proof.
  induction image_filepaths as [|image_filepath rest IH]; intros i s u s' Hrun.
  - injection Hrun as _ <-. apply never_unset_refl.
  - cbn [submit_all] in Hrun. split_bind Hrun. apply IH in Hrun.
    eapply never_unset_trans; [|exact Hrun].
    destruct (FileExists image_filepath); cbn [negb] in Hstep.
    + eapply ProcessImage_flags. exact Hstep.
    + apply emit_kept in Hstep as (_ & -> & _). apply never_unset_refl.
Qed.

Lemma collect_intrinsics_state (image_filepaths : list string) s r s' :
  collect_intrinsics image_filepaths s = Ok (r, s') -> s' = s.
Proof.
  revert r s'. induction image_filepaths as [|image_filepath rest IH];
    intros r s' Hrun.
  - injection Hrun as _ <-. reflexivity.
  - cbn [collect_intrinsics] in Hrun. unfold mbind at 1, get in Hrun.
    unfold mbind at 1, FindOrDie in Hrun.
    destruct (intrinsics_ s !! image_filepath); [|discriminate Hrun].
    unfold mret at 1 in Hrun. split_bind Hrun.
    injection Hrun as _ <-. eapply IH. reflexivity.
Qed.

Lemma ExtractAndMatchFeatures_flags s r s' :
  ExtractAndMatchFeatures options_ s = Ok (r, s') ->
  never_unset (intrinsics_ s) (intrinsics_ s').
Proof.
  intros Hrun.
  unfold ExtractAndMatchFeatures, mbind at 1, get in Hrun.
  split_bind Hrun. apply submit_all_flags in Hstep.
  split_bind Hrun. apply emit_kept in Hstep0 as (_ & Hmap & _).
  unfold mbind at 1, get in Hrun. split_bind Hrun.
  apply collect_intrinsics_state in Hstep0. injection Hrun as _ <-.
  subst. rewrite Hmap. exact Hstep.
Qed.

End ExifOnlySets.

(** C9 (amended): with an EXIF reader that only sets fields (it keeps the
    set flags set and the known image dimensions known), in neither a task
    nor a whole run of [ExtractAndMatchFeatures] does a stored prior lose a
    set field: a set flag stays set and a known image dimension stays known;
    registering an image without a prior and registering a mask
    leave the shared map as it is; registering an image with a prior stores
    the caller's prior for that image, whatever was stored for it before, and
    leaves the priors of all other images as they are. *)
Theorem set_flags_survive :
  (forall image_filepath p,
     flags_kept p (snd (ExtractEXIFMetadata image_filepath p))) ->
  (forall i s u s',
     ProcessImage options_ i s = Ok (u, s') ->
     never_unset (intrinsics_ s) (intrinsics_ s')) /\
  (forall s r s',
     ExtractAndMatchFeatures options_ s = Ok (r, s') ->
     never_unset (intrinsics_ s) (intrinsics_ s')) /\
  (forall image_filepath s,
     exists s', AddImage image_filepath s = Ok (true, s') /\
                intrinsics_ s' = intrinsics_ s) /\
  (forall image_filepath mask_filepath s,
     exists s', AddMaskForFeaturesExtraction image_filepath mask_filepath s
                = Ok (true, s') /\
                intrinsics_ s' = intrinsics_ s) /\
  (forall image_filepath prior s,
     exists s', AddImageWithPrior image_filepath prior s = Ok (true, s') /\
                intrinsics_ s' = <[image_filepath := prior]> (intrinsics_ s)).
Proof.
  intros Hexif. split; [|split; [|split; [|split]]].
  - intros i s u s'. apply ProcessImage_flags. exact Hexif.
  - intros s r s'. apply ExtractAndMatchFeatures_flags. exact Hexif.
  - intros image_filepath s. eexists. split; reflexivity.
  - intros image_filepath mask_filepath s. eexists. split; reflexivity.
  - intros image_filepath prior s. eexists. split; reflexivity.
Qed.

End PipelineProperties.

(** ** The pipeline on concrete inputs *)
Section PipelineRuns.
Import Pipeline Examples.
Local Open Scope string_scope.

(** Two registered images, the second without a file and without a prior:
    the run stops in the output loop. *)
Lemma missing_file_run :
  "img/c.jpg" ∈ image_filepaths_ one_missing /\
  @FileExists (env_of disk0) "img/c.jpg" = false /\
  intrinsics_ one_missing !! "img/c.jpg" = None /\
  (forall r, @ExtractAndMatchFeatures (env_of disk0)
               (pipeline_options false true 100) one_missing <> Ok r) /\
  @ExtractAndMatchFeatures (env_of disk0) (pipeline_options false true 100)
    one_missing = Fatal "Map key not found".
Proof.
  assert (Hin : "img/c.jpg" ∈ image_filepaths_ one_missing).
  { apply (list_elem_of_further _ _ ["img/c.jpg"]), list_elem_of_here. }
  assert (Hfile : @FileExists (env_of disk0) "img/c.jpg" = false)
    by reflexivity.
  assert (Hnone : intrinsics_ one_missing !! "img/c.jpg" = None)
    by reflexivity.
  split; [exact Hin|]. split; [exact Hfile|]. split; [exact Hnone|]. split.
  - exact (@missing_file_without_prior_aborts (env_of disk0)
             (pipeline_options false true 100) one_missing "img/c.jpg"
             Hin Hfile Hnone).
  - vm_compute. reflexivity.
Defined.



(** The cache file of the image exists, the image is processed with
    out-of-core matching disabled, and the extractor runs on it. *)
Lemma cache_file_not_consulted :
  @FileExists (env_of disk0)
    (@feature_filepath (env_of disk0) (pipeline_options false false 100)
                       "a.jpg") = true /\
  exists r s',
    @ExtractAndMatchFeatures (env_of disk0) (pipeline_options false false 100)
      two_images = Ok (r, s') /\
    In (CallDetectAndExtractDescriptors "img/a.jpg" true) (events s').
Proof.
  split; [reflexivity|].
  destruct (@ExtractAndMatchFeatures (env_of disk0)
              (pipeline_options false false 100) two_images)
    as [[r s']| |] eqn:Hrun; try (vm_compute in Hrun; discriminate Hrun).
  exists r, s'. split; [reflexivity|].
  vm_compute in Hrun. injection Hrun as _ <-. cbn. tauto.
Qed.

(** With out-of-core matching enabled the cached image is registered without
    any extraction. *)
Lemma cache_hit_run :
  exists s',
    @ProcessImage (env_of disk0) (pipeline_options false true 100) 0 two_images
    = Ok (tt, s') /\
    existsb is_extraction (new_events two_images s') = false /\
    map registered_name (matcher_ s') = ["a.jpg"].
Proof.
  destruct (@cache_hit_skips_extraction (env_of disk0)
              (pipeline_options false true 100) two_images 0%nat
              "img/a.jpg" "a.jpg")
    as (s' & Hrun & Hnone & _ & _ & Hmatcher & _); try reflexivity.
  exists s'. split; [exact Hrun|]. split; [exact Hnone|].
  rewrite Hmatcher. reflexivity.
Defined.


(** With the same matcher, a failed extraction that leaves its output
    vectors empty yields no pair for the failed image: what the image
    contributes is what the failed extractor left. *)
Lemma failed_image_without_leftover :
  exists r s' prior,
    @ExtractAndMatchFeatures (MoreExamples.feature_matcher_env false disk0)
      (pipeline_options false false 100) two_images = Ok (r, s') /\
    matcher_ s' !! 1%nat = Some (AddImageWithFeatures "b.jpg" [] [] prior) /\
    snd r = [].
Proof.
  destruct (@ExtractAndMatchFeatures (MoreExamples.feature_matcher_env false disk0)
              (pipeline_options false false 100) two_images)
    as [[r s']| |] eqn:Hrun; try (vm_compute in Hrun; discriminate Hrun).
  exists r, s'. vm_compute in Hrun. injection Hrun as <- <-.
  eexists. split; [reflexivity|]. split; reflexivity.
Qed.


(** Registering an image again, with a prior that sets nothing, unsets the
    focal length stored for it. *)
Lemma reregistration_unsets_focal_length :
  exists s',
    AddImageWithPrior "img/a.jpg" default_prior one_calibrated = Ok (true, s') /\
    ~ never_unset (intrinsics_ one_calibrated) (intrinsics_ s').
Proof.
  eexists. split; [reflexivity|].
  intros Hkept.
  destruct (Hkept "img/a.jpg" calibrated_prior eq_refl) as (q & Hq & Hflags & _).
  vm_compute in Hq. injection Hq as <-.
  exact (Hflags I).
Qed.

(** The EXIF reader of the example disks only sets fields. *)
Lemma exif_of_only_sets d image_filepath p :
  flags_kept p (snd (exif_of d image_filepath p)).
Proof.
  unfold exif_of, flags_kept. cbn.
  destruct (member image_filepath (with_exif_focal d)); cbn; repeat split; done.
Qed.

(** The first image is registered with a prior that sets the principal
    point and the image dimensions but no focal length, so its task reads
    the EXIF data, falls back to the heuristic focal length and writes the
    prior back. After the complete run the stored prior of the image still
    has its principal point and its dimensions (the latter now those read
    from the EXIF data), and has gained a focal length. *)
Lemma set_flags_survive_run :
  intrinsics_ MoreExamples.one_centred !! "img/a.jpg"
  = Some MoreExamples.centred_prior /\
  exists r s' q,
    @ExtractAndMatchFeatures (env_of disk0) (pipeline_options false false 100)
      MoreExamples.one_centred = Ok (r, s') /\
    never_unset (intrinsics_ MoreExamples.one_centred) (intrinsics_ s') /\
    intrinsics_ s' !! "img/a.jpg" = Some q /\
    flags_kept MoreExamples.centred_prior q /\
    is_set (principal_point q) = true /\
    is_set (focal_length q) = true /\
    image_width q = 640 /\ image_height q = 480.
Proof.
  split; [reflexivity|].
  destruct (@ExtractAndMatchFeatures (env_of disk0)
              (pipeline_options false false 100) MoreExamples.one_centred)
    as [[r s']| |] eqn:Hrun; try (vm_compute in Hrun; discriminate Hrun).
  destruct (@set_flags_survive (env_of disk0) (pipeline_options false false 100)
              (exif_of_only_sets disk0)) as (_ & Hall & _).
  pose proof (Hall _ _ _ Hrun) as Hkept.
  destruct (Hkept "img/a.jpg" MoreExamples.centred_prior eq_refl)
    as (q & Hq & Hflags).
  exists r, s', q. split; [reflexivity|]. split; [exact Hkept|].
  split; [exact Hq|]. split; [exact Hflags|].
  vm_compute in Hrun. injection Hrun as _ <-.
  vm_compute in Hq. injection Hq as <-.
  repeat split.
Defined.

End PipelineRuns.

(** * More properties of the two-view estimator *)
Section EstimatorExtras.
Import TwoView TwoViewReadings.
Context `{CameraModel} `{PyramidModel} `{Solvers}.

(** What the loop over the inliers leaves in the two pyramids. *)
Lemma add_inliers_inserts correspondences (inlier_indices : list Z) :
  forall pyramids,
    Forall (in_bounds correspondences) inlier_indices ->
    add_inliers correspondences inlier_indices pyramids =
    Some (insert_all (map feature1
                        (inlier_matches correspondences inlier_indices))
                     (fst pyramids),
          insert_all (map feature2
                        (inlier_matches correspondences inlier_indices))
                     (snd pyramids)) /\
    length (inlier_matches correspondences inlier_indices) =
    length inlier_indices.
Proof.
  induction inlier_indices as [|i rest IH]; intros [p1 p2] Hall.
  - split; reflexivity.
  - apply Forall_cons in Hall as [[Hlo Hhi] Hrest].
    cbn [add_inliers inlier_matches omap list_omap].
    destruct (Z.ltb_spec i 0) as [|_]; [lia|].
    destruct (lookup_lt_is_Some_2 correspondences (Z.to_nat i)) as [m Hm];
      [lia|].
    rewrite Hm. cbn [fst snd].
    destruct (IH (AddPoint (feature1 m) p1, AddPoint (feature2 m) p2) Hrest)
      as [Hrun Hlen].
    rewrite Hrun. cbn [fst snd]. split; [reflexivity|].
    cbn [length]. f_equal. exact Hlen.
Qed.

Lemma add_inliers_defined correspondences (inlier_indices : list Z) :
  forall pyramids,
    is_Some (add_inliers correspondences inlier_indices pyramids) ->
    Forall (in_bounds correspondences) inlier_indices.
Proof.
  induction inlier_indices as [|i rest IH]; intros pyramids Hsome.
  - constructor.
  - cbn [add_inliers] in Hsome.
    destruct (Z.ltb_spec i 0) as [|Hlo]; [destruct Hsome; discriminate|].
    destruct (correspondences !! Z.to_nat i) as [m|] eqn:Hm;
      [|destruct Hsome; discriminate].
    constructor; [|eapply IH; exact Hsome].
    apply lookup_lt_Some in Hm. unfold in_bounds. lia.
Qed.

(** X1: [ComputeVisibilityScoreOfInliers] has a defined result exactly when
    an image dimension is unknown (the correspondences are then not read at
    all) or every inlier index lies within the correspondence vector. *)
Theorem visibility_score_defined_iff_in_bounds intrinsics1 intrinsics2
    correspondences inlier_indices :
  is_Some (ComputeVisibilityScoreOfInliers intrinsics1 intrinsics2
             correspondences inlier_indices) <->
  dimensions_unknown intrinsics1 intrinsics2 = true \/
  Forall (in_bounds correspondences) inlier_indices.
Proof.
  unfold ComputeVisibilityScoreOfInliers, dimensions_unknown.
  destruct (_ || _).
  - split; [intros _; left; reflexivity|intros _; eexists; reflexivity].
  - split.
    + intros Hsome. right.
      destruct (add_inliers _ _ _) as [[p1 p2]|] eqn:Hadd;
        [|destruct Hsome; discriminate].
      eapply add_inliers_defined. rewrite Hadd. eexists; reflexivity.
    + intros [Hfalse|Hall]; [discriminate|].
      destruct (add_inliers_inserts _ _ 
                  (new_pyramid (image_width intrinsics1)
                     (image_height intrinsics1) kNumPyramidLevels,
                   new_pyramid (image_width intrinsics2)
                     (image_height intrinsics2) kNumPyramidLevels) Hall)
        as [-> _].
      eexists; reflexivity.
Qed.

(** X2: with known dimensions and inlier indices within bounds, the score
    is the sum of the scores of two 6-level pyramids that have received, in
    index order, the first and the second feature of every indexed
    correspondence, one insertion per index. *)
Theorem visibility_score_inserts_every_inlier intrinsics1 intrinsics2
    correspondences inlier_indices :
  dimensions_unknown intrinsics1 intrinsics2 = false ->
  Forall (in_bounds correspondences) inlier_indices ->
  let inlying := inlier_matches correspondences inlier_indices in
  length inlying = length inlier_indices /\
  ComputeVisibilityScoreOfInliers intrinsics1 intrinsics2
    correspondences inlier_indices =
  Some (to_int
          (ComputeScore
             (insert_all (map feature1 inlying)
                (new_pyramid (image_width intrinsics1)
                             (image_height intrinsics1) 6)) +
           ComputeScore
             (insert_all (map feature2 inlying)
                (new_pyramid (image_width intrinsics2)
                             (image_height intrinsics2) 6)))).
Proof.
  intros Hknown Hall inlying.
  unfold ComputeVisibilityScoreOfInliers.
  unfold dimensions_unknown in Hknown. rewrite Hknown.
  destruct (add_inliers_inserts _ _
              (new_pyramid (image_width intrinsics1)
                 (image_height intrinsics1) kNumPyramidLevels,
               new_pyramid (image_width intrinsics2)
                 (image_height intrinsics2) kNumPyramidLevels) Hall)
    as [-> Hlen].
  split; [exact Hlen|reflexivity].
Qed.

(** Unfolds a call of the estimator on the cleared index vector and splits
    on the flags and on the answer of the solver. *)
Ltac estimator_cases intrinsics1 intrinsics2 :=
  unfold EstimateTwoViewInfo, EstimateTwoViewInfoCalibrated,
    EstimateTwoViewInfoUncalibrated, both_calibrated;
  rewrite !visibility_score_no_inliers;
  destruct (is_set (focal_length intrinsics1)),
           (is_set (focal_length intrinsics2)); cbn [andb orb negb xorb];
  match goal with
  | |- context [match ?answer with _ => _ end] =>
      destruct answer as [[? ?]|] eqn:?
  end;
  try match goal with
  | |- context [AngleAxisd ?m] => destruct (AngleAxisd m) eqn:?
  end;
  cbn [prepend ret twoview_info inlier_indices trace].

(** X3: what the caller leaves in the two out-parameters has no influence
    on the call: the returned flag, the inlier indices, the trace and, on
    success, the written record are the same whatever they held. *)
Theorem estimator_ignores_incoming_outputs options intrinsics1 intrinsics2
    correspondences info info' indices indices' :
  exists o o',
    EstimateTwoViewInfo options intrinsics1 intrinsics2
                        correspondences info indices = Some o /\
    EstimateTwoViewInfo options intrinsics1 intrinsics2
                        correspondences info' indices' = Some o' /\
    ret o = ret o' /\
    inlier_indices o = inlier_indices o' /\
    trace o = trace o' /\
    (ret o = true -> twoview_info o = twoview_info o').
Proof.
  estimator_cases intrinsics1 intrinsics2; do 2 eexists;
    (split; [reflexivity|]); (split; [reflexivity|]);
    cbn; repeat split; intros; (discriminate || reflexivity).
Qed.

(** X4: the estimator logs its warning exactly when one focal length is set
    and the other is not, and at most once per call. *)
Theorem warning_iff_exactly_one_calibrated options intrinsics1 intrinsics2
    correspondences info indices :
  exists o,
    EstimateTwoViewInfo options intrinsics1 intrinsics2
                        correspondences info indices = Some o /\
    existsb is_warning (trace o) =
      xorb (is_set (focal_length intrinsics1))
           (is_set (focal_length intrinsics2)) /\
    (length (List.filter is_warning (trace o)) <= 1)%nat.
Proof.
  estimator_cases intrinsics1 intrinsics2; eexists;
    (split; [reflexivity|]); cbn; split; (reflexivity || lia).
Qed.

(** X5: the solver is given the random generator and the iteration bounds
    of the options in both branches; [use_mle] is passed on only in the
    calibrated branch, the uncalibrated branch leaves the default of
    [RansacParameters]. *)
Theorem solver_receives_options options intrinsics1 intrinsics2
    correspondences info indices :
  exists o p,
    EstimateTwoViewInfo options intrinsics1 intrinsics2
                        correspondences info indices = Some o /\
    flat_map solver_parameters (trace o) = [p] /\
    rp_rng p = rng options /\
    min_iterations p = min_ransac_iterations options /\
    max_iterations p = max_ransac_iterations options /\
    rp_use_mle p =
      if both_calibrated intrinsics1 intrinsics2 then use_mle options
      else rp_use_mle default_ransac_parameters.
Proof.
  estimator_cases intrinsics1 intrinsics2; do 2 eexists;
    (split; [reflexivity|]); cbn; repeat split.
Qed.

(** X6: when both focal lengths are set, the correspondences handed to the
    solver are the input correspondences, as many and in the same order,
    mapped through the two cameras as set from the priors, with no focal
    length reset. *)
Theorem calibrated_normalization_keeps_cameras options intrinsics1 intrinsics2
    correspondences info indices :
  both_calibrated intrinsics1 intrinsics2 = true ->
  exists o normalized,
    EstimateTwoViewInfo options intrinsics1 intrinsics2
                        correspondences info indices = Some o /\
    flat_map solver_inputs (trace o) = [normalized] /\
    normalized =
      map (normalize_with
             (SetFromCameraIntrinsicsPriors intrinsics1 new_camera)
             (SetFromCameraIntrinsicsPriors intrinsics2 new_camera))
          correspondences /\
    length normalized = length correspondences.
Proof.
  intros Hboth.
  assert (Hn : NormalizeFeatures intrinsics1 intrinsics2 correspondences =
               map (normalize_with
                      (SetFromCameraIntrinsicsPriors intrinsics1 new_camera)
                      (SetFromCameraIntrinsicsPriors intrinsics2 new_camera))
                   correspondences).
  { unfold NormalizeFeatures, normalization_cameras.
    unfold both_calibrated in Hboth.
    destruct (is_set (focal_length intrinsics1)),
             (is_set (focal_length intrinsics2));
      try discriminate Hboth; reflexivity. }
  revert Hboth.
  estimator_cases intrinsics1 intrinsics2; intros Hboth;
    try discriminate Hboth;
    do 2 eexists; (split; [reflexivity|]); rewrite <- Hn;
    (split; [reflexivity|]); (split; [reflexivity|]);
    rewrite Hn; apply length_map.
Qed.

(** X7: on success the record holds the angle of the solver's rotation
    times its axis and the solver's position; in the calibrated branch its
    two focal lengths are those of the priors. *)
Theorem record_assembly options intrinsics1 intrinsics2
    correspondences info indices :
  exists o,
    EstimateTwoViewInfo options intrinsics1 intrinsics2
                        correspondences info indices = Some o /\
    (ret o = true ->
     exists rotation position,
       flat_map reported_poses (trace o) = [(rotation, position)] /\
       rotation_2 (twoview_info o) =
         scale3 (fst (AngleAxisd rotation)) (snd (AngleAxisd rotation)) /\
       position_2 (twoview_info o) = position /\
       (both_calibrated intrinsics1 intrinsics2 = true ->
        focal_length_1 (twoview_info o) =
          value_at (focal_length intrinsics1) 0 /\
        focal_length_2 (twoview_info o) =
          value_at (focal_length intrinsics2) 0)).
Proof.
  estimator_cases intrinsics1 intrinsics2; eexists;
    (split; [reflexivity|]); cbn; intros; try discriminate;
    do 2 eexists; (split; [reflexivity|]);
    match goal with Hax : AngleAxisd _ = _ |- _ => rewrite Hax end;
    cbn; repeat split; intros; (discriminate || reflexivity).
Qed.

End EstimatorExtras.

(** * More properties of the pipeline *)
Section PipelineExtras.
Import Pipeline PipelineReadings.
Context `{Environment}.
Variable options_ : Options.

(** Splits a hypothesis on a sequence of two computations. *)
Ltac bind_cases Hrun :=
  unfold mbind at 1 in Hrun;
  match type of Hrun with
  | match ?m with _ => _ end = _ =>
      let Hstep := fresh "Hstep" in
      destruct m as [[? ?]| |] eqn:Hstep; try discriminate Hrun
  end.

(** ** Traces *)

Lemma registrations_in_app l k :
  registrations_in (l ++ k) = registrations_in l ++ registrations_in k.
Proof. apply flat_map_app. Qed.

Lemma extractions_in_app l k :
  extractions_in (l ++ k) = extractions_in l ++ extractions_in k.
Proof. apply flat_map_app. Qed.

Lemma grows_refl s : grows s s [].
Proof. split; cbn; rewrite app_nil_r; reflexivity. Qed.

Lemma grows_trans s1 s2 s3 l k :
  grows s1 s2 l -> grows s2 s3 k -> grows s1 s3 (l ++ k).
Proof.
  intros [He Hm] [He' Hm']. split.
  - rewrite He', He, app_assoc. reflexivity.
  - rewrite Hm', Hm, registrations_in_app, app_assoc. reflexivity.
Qed.

Lemma emit_grows e s u s' :
  registrations_of e = [] -> emit e s = Ok (u, s') -> grows s s' [e].
Proof.
  intros He [= _ <-]. split; cbn; [reflexivity|].
  rewrite He, app_nil_r. reflexivity.
Qed.

Lemma matcher_AddImage_grows r s u s' :
  matcher_AddImage r s = Ok (u, s') -> grows s s' [CallMatcherAddImage r].
Proof. intros [= _ <-]. split; reflexivity. Qed.

Lemma grows_new_events s s' l : grows s s' l -> new_events s s' = l.
Proof.
  intros [He _]. unfold new_events. rewrite He. apply drop_app_length.
Qed.

Lemma lock_run_app l k held :
  lock_run held (l ++ k) =
  match lock_run held l with
  | Some held' => lock_run held' k
  | None => None
  end.
Proof.
  revert held. induction l as [|e l IH]; intros held; [reflexivity|].
  cbn [app lock_run]. destruct (lock_step held e); [apply IH|reflexivity].
Qed.

Lemma disciplined_app l k : disciplined l -> disciplined k -> disciplined (l ++ k).
Proof.
  unfold disciplined. intros Hl Hk. rewrite lock_run_app, Hl. exact Hk.
Qed.

(** The events of [ExtractFeatures]: one call of the extractor on the image,
    one log message, nothing for the matcher. *)
Lemma ExtractFeatures_trace image_filepath imagemask_filepath keypoints
    descriptors s r s' :
  ExtractFeatures options_ image_filepath imagemask_filepath keypoints
                  descriptors s = Ok (r, s') ->
  exists ok msg,
    grows s s' [CallDetectAndExtractDescriptors image_filepath ok;
                Log msg image_filepath].
Proof.
  unfold ExtractFeatures.
  destruct (DetectAndExtractDescriptors _ _ _ _ _) as [[ok kps] descs].
  intros Hrun. bind_cases Hrun. apply emit_grows in Hstep; [|reflexivity].
  destruct ok; cbn [negb] in Hrun.
  - bind_cases Hrun.
    assert (Hmask : s1 = s0).
    { destruct (0 <? String.length imagemask_filepath)%nat.
      - bind_cases Hstep0. apply CHECK_kept in Hstep1. subst.
        apply lift_kept in Hstep0. exact Hstep0.
      - injection Hstep0 as _ ->. reflexivity. }
    subst s1. destruct p as [kps' descs'].
    destruct (_ >? _); bind_cases Hrun;
      (apply emit_grows in Hstep1; [|reflexivity]);
      injection Hrun as _ <-; do 2 eexists;
      exact (grows_trans _ _ _ _ _ Hstep Hstep1).
  - bind_cases Hrun. apply emit_grows in Hstep0; [|reflexivity].
    injection Hrun as _ <-. do 2 eexists.
    exact (grows_trans _ _ _ _ _ Hstep Hstep0).
Qed.

Lemma after_resolution_grows image_filepath stored s :
  grows s (after_resolution options_ image_filepath stored s)
    (if is_set (focal_length stored) then []
     else [Lock intrinsics_mutex_; Unlock intrinsics_mutex_]).
Proof.
  unfold after_resolution. destruct (is_set _); [apply grows_refl|].
  split; cbn; [reflexivity|]. rewrite app_nil_r. reflexivity.
Qed.

(** The trace of a task: what it reads, what it may emit, and how. *)
Lemma ProcessImage_trace i s u s' :
  ProcessImage options_ i s = Ok (u, s') ->
  exists image_filepath l,
    image_filepaths_ s !! i = Some image_filepath /\
    grows s s' l /\
    disciplined l /\
    Forall (task_event options_ s image_filepath) l /\
    (length (registrations_in l) <= 1)%nat /\
    (length (extractions_in l) <= 1)%nat.
Proof.
  unfold ProcessImage, mbind at 1, get.
  destruct (image_filepaths_ s !! i) as [image_filepath|]; [|discriminate].
  intros Hrun. exists image_filepath.
  bind_cases Hrun. apply resolve_calibration_inv in Hstep as [-> ->].
  pose proof (after_resolution_grows image_filepath
                (FindWithDefault (intrinsics_ s) image_filepath default_prior) s)
    as Hres.
  set (s1 := after_resolution _ _ _ _) in *.
  destruct (_ && _).
  { apply emit_grows in Hrun; [|reflexivity].
    eexists. split; [reflexivity|].
    split; [exact (grows_trans _ _ _ _ _ Hres Hrun)|].
    destruct (is_set _); repeat split; cbn; repeat constructor. }
  bind_cases Hrun. apply emit_grows in Hstep; [|reflexivity].
  destruct (GetFilenameFromFilepath image_filepath true) as [name|] eqn:Hname;
    [|discriminate].
  destruct (_ && _).
  - bind_cases Hrun. apply emit_grows in Hstep0; [|reflexivity].
    bind_cases Hrun. apply matcher_AddImage_grows in Hstep1.
    apply emit_grows in Hrun; [|reflexivity].
    eexists. split; [reflexivity|].
    split; [exact (grows_trans _ _ _ _ _ Hres
                     (grows_trans _ _ _ _ _ Hstep
                        (grows_trans _ _ _ _ _ Hstep0
                           (grows_trans _ _ _ _ _ Hstep1 Hrun))))|].
    destruct (is_set _); repeat split; cbn; repeat constructor;
      (exact Hname || reflexivity).
  - bind_cases Hrun. apply ExtractFeatures_trace in Hstep0 as (ok & msg & Hext).
    destruct p as [kps descs].
    bind_cases Hrun. apply emit_grows in Hstep0; [|reflexivity].
    bind_cases Hrun. apply matcher_AddImage_grows in Hstep1.
    apply emit_grows in Hrun; [|reflexivity].
    eexists. split; [reflexivity|].
    split; [exact (grows_trans _ _ _ _ _ Hres
                     (grows_trans _ _ _ _ _ Hstep
                        (grows_trans _ _ _ _ _ Hext
                           (grows_trans _ _ _ _ _ Hstep0
                              (grows_trans _ _ _ _ _ Hstep1 Hrun)))))|].
    destruct (is_set _); repeat split; cbn; repeat constructor;
      (exact Hname || reflexivity).
Qed.

(** ** The submission loop *)

Lemma submitted_cons_existing image_filepath rest :
  FileExists image_filepath = true ->
  submitted (image_filepath :: rest) = image_filepath :: submitted rest.
Proof. intros Hfile. unfold submitted. cbn. rewrite Hfile. reflexivity. Qed.

Lemma submitted_cons_missing image_filepath rest :
  FileExists image_filepath = false ->
  submitted (image_filepath :: rest) = submitted rest.
Proof. intros Hfile. unfold submitted. cbn. rewrite Hfile. reflexivity. Qed.

(** The extractions of a task are all of its own image. *)
Lemma task_events_extractions s image_filepath l :
  Forall (task_event options_ s image_filepath) l ->
  Forall (fun p => p = image_filepath) (extractions_in l).
Proof.
  intros Hall. induction Hall as [|e l He _ IH]; [constructor|].
  unfold extractions_in. cbn [flat_map]. apply Forall_app. split; [|exact IH].
  destruct e; cbn in He |- *; try constructor; [exact He|constructor].
Qed.

(** The registrations of a task are all under the name of its own image. *)
Lemma task_events_registrations s image_filepath l :
  Forall (task_event options_ s image_filepath) l ->
  Forall (fun r => GetFilenameFromFilepath image_filepath true =
                   Some (registered_name r))
         (registrations_in l).
Proof.
  intros Hall. induction Hall as [|e l He _ IH]; [constructor|].
  unfold registrations_in. cbn [flat_map]. apply Forall_app. split; [|exact IH].
  destruct e; cbn in He |- *; try constructor; [apply He|constructor].
Qed.

Lemma task_events_collaborators s image_filepath l :
  FileExists image_filepath = true ->
  disciplined l ->
  Forall (task_event options_ s image_filepath) l ->
  (length (registrations_in l) <= 1)%nat ->
  (length (extractions_in l) <= 1)%nat ->
  collaborators_see [image_filepath] l.
Proof.
  intros Hfile Hlock Hall Hlen Hlen'.
  pose proof (task_events_extractions _ _ _ Hall) as Hext.
  pose proof (task_events_registrations _ _ _ Hall) as Hreg.
  rewrite <- (app_nil_r [image_filepath]) at 1. cbn [app].
  unfold collaborators_see. rewrite submitted_cons_existing by exact Hfile.
  split; [exact Hlock|]. cbn [submitted List.filter length].
  split; [|split; [|split; [|split; [exact Hlen|split]]]].
  4:{ destruct (extractions_in l) as [|p [|p' rest]]; cbn in Hlen';
        [apply submseteq_nil_l| |lia].
      apply Forall_cons in Hext as [-> _]. reflexivity. }
  4:{ destruct (registrations_in l) as [|r [|r' rest]]; cbn in Hlen; [| |lia].
      - exists []. split; [apply submseteq_nil_l|constructor].
      - exists [image_filepath]. split; [reflexivity|].
        apply Forall_cons in Hreg as [Hr _]. constructor; [exact Hr|constructor]. }
  - clear Hlock Hlen Hlen' Hext Hreg.
    induction Hall as [|e l He _ IH]; [reflexivity|].
    cbn [existsb]. rewrite IH. destruct e; cbn in He |- *; tauto.
  - eapply Forall_impl; [exact Hext|]. intros p ->. apply list_elem_of_here.
  - eapply Forall_impl; [exact Hreg|]. intros r Hr.
    exists image_filepath. split; [apply list_elem_of_here|exact Hr].
Qed.

Lemma collaborators_see_app l1 l2 t1 t2 :
  collaborators_see l1 t1 -> collaborators_see l2 t2 ->
  collaborators_see (l1 ++ l2) (t1 ++ t2).
Proof.
  intros (Hd1 & Hm1 & He1 & Hr1 & Hn1 & Hx1 & ps1 & Hps1 & Hone1)
         (Hd2 & Hm2 & He2 & Hr2 & Hn2 & Hx2 & ps2 & Hps2 & Hone2).
  assert (Hsub : submitted (l1 ++ l2) = submitted l1 ++ submitted l2)
    by apply List.filter_app.
  unfold collaborators_see.
  rewrite Hsub, extractions_in_app, registrations_in_app, existsb_app,
    !length_app, Hm1, Hm2.
  split; [apply disciplined_app; assumption|].
  split; [reflexivity|].
  split; [|split; [|split; [lia|split]]].
  3:{ apply submseteq_app; assumption. }
  3:{ exists (ps1 ++ ps2). split; [apply submseteq_app; assumption|].
      apply Forall2_app; assumption. }
  - apply Forall_app. split.
    + eapply Forall_impl; [exact He1|]. intros p Hp. apply elem_of_app. tauto.
    + eapply Forall_impl; [exact He2|]. intros p Hp. apply elem_of_app. tauto.
  - apply Forall_app. split.
    + eapply Forall_impl; [exact Hr1|]. intros r (p & Hp & Hr).
      exists p. split; [apply elem_of_app; tauto|exact Hr].
    + eapply Forall_impl; [exact Hr2|]. intros r (p & Hp & Hr).
      exists p. split; [apply elem_of_app; tauto|exact Hr].
Qed.

Lemma collaborators_see_missing image_filepath msg :
  FileExists image_filepath = false ->
  collaborators_see [image_filepath] [Log msg image_filepath].
Proof.
  intros Hfile. unfold collaborators_see.
  rewrite submitted_cons_missing by exact Hfile.
  do 6 (split; [cbn; (constructor || lia)|]).
  exists []. split; constructor.
Qed.

Lemma submit_all_trace (image_filepaths : list string) :
  forall i s u s',
    drop i (image_filepaths_ s) = image_filepaths ->
    submit_all options_ i image_filepaths s = Ok (u, s') ->
    exists l, grows s s' l /\ collaborators_see image_filepaths l.
Proof.
  induction image_filepaths as [|image_filepath rest IH];
    intros i s u s' Hdrop Hrun.
  - injection Hrun as _ <-. exists []. split; [apply grows_refl|].
    do 6 (split; [cbn; (constructor || lia)|]).
    exists []. split; constructor.
  - apply drop_cons_inv in Hdrop as [Hpath Hrest].
    cbn [submit_all] in Hrun. bind_cases Hrun.
    destruct (FileExists image_filepath) eqn:Hfile; cbn [negb] in Hstep.
    + pose proof (ProcessImage_paths _ _ _ _ _ Hstep) as Hpaths.
      apply ProcessImage_trace in Hstep
        as (p & l & Hp & Hgrow & Hlock & Hall & Hlen & Hlen').
      assert (p = image_filepath) by congruence. subst p.
      apply IH in Hrun as (k & Hgrow' & Hsee); [|rewrite Hpaths; exact Hrest].
      exists (l ++ k). split; [exact (grows_trans _ _ _ _ _ Hgrow Hgrow')|].
      apply (collaborators_see_app [image_filepath] rest); [|exact Hsee].
      eapply task_events_collaborators; eassumption.
    + pose proof (emit_kept _ _ _ _ Hstep) as (Hpaths & _ & _).
      apply emit_grows in Hstep; [|reflexivity].
      apply IH in Hrun as (k & Hgrow' & Hsee); [|rewrite Hpaths; exact Hrest].
      eexists. split; [exact (grows_trans _ _ _ _ _ Hstep Hgrow')|].
      apply (collaborators_see_app [image_filepath] rest); [|exact Hsee].
      apply collaborators_see_missing. exact Hfile.
Qed.

(** The priors the output loop collects are those of the shared map, one per
    registered image, in registration order. *)
Lemma collect_intrinsics_aligned (image_filepaths : list string) s :
  forall priors s',
    collect_intrinsics image_filepaths s = Ok (priors, s') ->
    Forall2 (fun image_filepath prior =>
               intrinsics_ s !! image_filepath = Some prior)
            image_filepaths priors.
Proof.
  induction image_filepaths as [|image_filepath rest IH]; intros priors s' Hrun.
  - injection Hrun as <- _. constructor.
  - cbn [collect_intrinsics] in Hrun. unfold mbind at 1, get in Hrun.
    unfold mbind at 1, FindOrDie in Hrun.
    destruct (intrinsics_ s !! image_filepath) as [prior|] eqn:Hprior;
      [|discriminate Hrun].
    unfold mret at 1 in Hrun. bind_cases Hrun.
    injection Hrun as <- _. constructor; [exact Hprior|].
    eapply IH. reflexivity.
Qed.

(** The run, taken apart. *)
Lemma ExtractAndMatchFeatures_inv s priors matches s' :
  ExtractAndMatchFeatures options_ s = Ok (priors, matches, s') ->
  exists s1 l,
    submit_all options_ 0 (image_filepaths_ s) s = Ok (tt, s1) /\
    grows s s1 l /\
    collaborators_see (image_filepaths_ s) l /\
    grows s s' (l ++ [CallMatchImages]) /\
    image_filepaths_ s' = image_filepaths_ s /\
    intrinsics_ s' = intrinsics_ s1 /\
    matches = MatchImages (matcher_ s') /\
    Forall2 (fun image_filepath prior =>
               intrinsics_ s' !! image_filepath = Some prior)
            (image_filepaths_ s) priors.
Proof.
  intros Hrun.
  unfold ExtractAndMatchFeatures, mbind at 1, get in Hrun.
  bind_cases Hrun. destruct u.
  pose proof (submit_all_effect _ _ _ _ _ _ eq_refl Hstep) as [Hpaths _].
  pose proof (submit_all_trace _ _ _ _ _ eq_refl Hstep) as (l & Hgrow & Hsee).
  bind_cases Hrun.
  pose proof (emit_kept _ _ _ _ Hstep0) as (Hpaths' & Hmap' & _).
  apply emit_grows in Hstep0; [|reflexivity].
  unfold mbind at 1, get in Hrun. bind_cases Hrun.
  pose proof (collect_intrinsics_state _ _ _ _ Hstep1) as ->.
  apply collect_intrinsics_aligned in Hstep1.
  injection Hrun as <- <- <-.
  exists s0, l. split; [reflexivity|]. split; [exact Hgrow|].
  split; [exact Hsee|].
  split; [exact (grows_trans _ _ _ _ _ Hgrow Hstep0)|].
  split; [congruence|]. split; [exact Hmap'|]. split; [reflexivity|].
  rewrite <- Hpaths, <- Hpaths'. exact Hstep1.
Qed.

(** X8: a completed run returns one prior per registered image, in
    registration order (duplicates included): element [i] is the prior the
    shared map holds for the [i]-th registered path when the run ends; the
    registration list itself is unchanged. *)
Theorem output_aligned_with_registration s priors matches s' :
  ExtractAndMatchFeatures options_ s = Ok (priors, matches, s') ->
  image_filepaths_ s' = image_filepaths_ s /\
  length priors = length (image_filepaths_ s) /\
  forall i image_filepath,
    image_filepaths_ s !! i = Some image_filepath ->
    exists prior,
      priors !! i = Some prior /\
      intrinsics_ s' !! image_filepath = Some prior.
Proof.
  intros Hrun.
  apply ExtractAndMatchFeatures_inv in Hrun
    as (s1 & l & _ & _ & _ & _ & Hpaths & _ & _ & Hall).
  split; [exact Hpaths|].
  split; [symmetry; eapply Forall2_length; exact Hall|].
  intros i image_filepath Hi.
  destruct (Forall2_lookup_l _ _ _ _ _ Hall Hi) as (prior & Hp & Hmap).
  exists prior. split; assumption.
Qed.

(** X9: in a completed run, an image whose file is missing was registered
    with a prior, gets exactly that prior back at its position, and the
    extractor is never called on it. *)
Theorem missing_file_keeps_registered_prior s priors matches s' i
    image_filepath :
  ExtractAndMatchFeatures options_ s = Ok (priors, matches, s') ->
  image_filepaths_ s !! i = Some image_filepath ->
  FileExists image_filepath = false ->
  exists prior,
    intrinsics_ s !! image_filepath = Some prior /\
    priors !! i = Some prior /\
    image_filepath ∉ extractions_in (new_events s s').
Proof.
  intros Hrun Hi Hfile.
  apply ExtractAndMatchFeatures_inv in Hrun
    as (s1 & l & Hsub & _ & Hsee & Hgrow & _ & Hmap & _ & Hall).
  destruct (Forall2_lookup_l _ _ _ _ _ Hall Hi) as (prior & Hp & Hprior).
  apply submit_all_effect in Hsub as [_ Hkeep]; [|reflexivity].
  exists prior. split; [rewrite <- Hkeep, <- Hmap by exact Hfile; exact Hprior|].
  split; [exact Hp|].
  rewrite (grows_new_events _ _ _ Hgrow), extractions_in_app. cbn.
  rewrite app_nil_r. destruct Hsee as (_ & _ & Hext & _).
  intros Hin. rewrite Forall_forall in Hext. apply Hext in Hin.
  unfold submitted in Hin. apply list_elem_of_In, List.filter_In in Hin.
  destruct Hin as [_ Hyes]. congruence.
Qed.

(** X10: a completed task keeps the lock discipline in its own sequence of
    events, whatever the state it starts from and whatever other tasks do in
    between: it takes a lock only while it holds none and releases only the
    lock it holds, it gives the matcher an image only while it holds the
    matcher's lock, it calls the extractor only while it holds no lock, it
    never starts the batch matching, and it holds no lock when it returns. *)
Theorem task_keeps_lock_discipline i s u s' :
  ProcessImage options_ i s = Ok (u, s') ->
  disciplined (new_events s s') /\
  existsb is_matching (new_events s s') = false.
Proof.
  intros Hrun.
  apply ProcessImage_trace in Hrun as (p & l & _ & Hgrow & Hlock & Hall & _).
  rewrite (grows_new_events _ _ _ Hgrow). split; [exact Hlock|].
  clear Hgrow Hlock. induction Hall as [|e l He _ IH]; [reflexivity|].
  cbn [existsb]. rewrite IH. destruct e; cbn in He |- *; tauto.
Qed.

(** X11: in a completed run the batch matching is called once, as the last
    event, after every registration; the matches returned are those the
    matcher computes from all registrations received so far. *)
Theorem matching_starts_after_all_tasks s priors matches s' :
  ExtractAndMatchFeatures options_ s = Ok (priors, matches, s') ->
  exists l,
    new_events s s' = l ++ [CallMatchImages] /\
    existsb is_matching l = false /\
    matcher_ s' = matcher_ s ++ registrations_in l /\
    matches = MatchImages (matcher_ s').
Proof.
  intros Hrun.
  apply ExtractAndMatchFeatures_inv in Hrun
    as (s1 & l & _ & _ & (_ & Hnone & _) & Hgrow & _ & _ & Hmatches & _).
  exists l. split; [exact (grows_new_events _ _ _ Hgrow)|].
  split; [exact Hnone|]. split; [|exact Hmatches].
  destruct Hgrow as [_ Hm]. rewrite Hm, registrations_in_app. cbn.
  rewrite app_nil_r. reflexivity.
Qed.

(** X12: in a completed run the extractor is called only on registered
    images whose file exists, and at most once per submitted entry of the
    registration list (the images it is called on are a sub-multiset of the
    submitted entries); the matcher only receives images registered under
    the file name of such an image, at most one registration per submitted
    entry (the registrations line up one to one with a sub-multiset of the
    submitted entries, each under the file name of its entry). *)
Theorem only_existing_images_reach_collaborators s priors matches s' :
  ExtractAndMatchFeatures options_ s = Ok (priors, matches, s') ->
  let l := new_events s s' in
  let existing := submitted (image_filepaths_ s) in
  Forall (fun p => p ∈ existing) (extractions_in l) /\
  Forall (fun r => exists p, p ∈ existing /\
                             GetFilenameFromFilepath p true =
                             Some (registered_name r))
         (registrations_in l) /\
  matcher_ s' = matcher_ s ++ registrations_in l /\
  (length (registrations_in l) <= length existing)%nat /\
  extractions_in l ⊆+ existing /\
  one_per_image existing (registrations_in l).
Proof.
  intros Hrun l existing. subst l existing.
  apply ExtractAndMatchFeatures_inv in Hrun
    as (s1 & l & _ & _ & (_ & _ & Hext & Hreg & Hlen & Hsub & Hone) & Hgrow & _).
  rewrite (grows_new_events _ _ _ Hgrow).
  rewrite extractions_in_app, registrations_in_app. cbn. rewrite !app_nil_r.
  split; [exact Hext|]. split; [exact Hreg|].
  split; [|split; [exact Hlen|split; [exact Hsub|exact Hone]]].
  destruct Hgrow as [_ Hm]. rewrite Hm, registrations_in_app. cbn.
  rewrite app_nil_r. reflexivity.
Qed.

(** ** Tasks *)

Lemma stored_prior_same_input image_filepath s0 s :
  same_input image_filepath s0 s ->
  stored_prior s image_filepath = stored_prior s0 image_filepath.
Proof.
  intros [Hmap _]. unfold stored_prior, FindWithDefault. rewrite Hmap.
  reflexivity.
Qed.

Lemma resolved_prior_of_calibrated image_filepath stored :
  is_set (focal_length stored) = true ->
  resolved_prior options_ image_filepath stored = stored.
Proof. intros Hset. unfold resolved_prior. rewrite Hset. reflexivity. Qed.

(** X13: a task for an image whose stored prior has a focal length does
    not consult the EXIF reader: it behaves the same with any other reader
    in its place, a failing one included. When it completes it leaves the
    shared map as it is, and what it registers with the matcher carries
    exactly the stored prior. *)
Theorem caller_focal_length_is_kept i s image_filepath exif :
  image_filepaths_ s !! i = Some image_filepath ->
  is_set (focal_length (stored_prior s image_filepath)) = true ->
  @ProcessImage (with_exif_reader exif) options_ i s =
  ProcessImage options_ i s /\
  forall u s',
    ProcessImage options_ i s = Ok (u, s') ->
    intrinsics_ s' = intrinsics_ s /\
    Forall (fun r => registered_prior r = stored_prior s image_filepath)
           (registrations_in (new_events s s')).
Proof.
  intros Hpath Hset. split.
  { unfold stored_prior in Hset.
    unfold ProcessImage, mbind, get, resolve_calibration.
    rewrite Hpath, Hset. reflexivity. }
  intros u s' Hrun. split.
  - apply ProcessImage_effect in Hrun as (p & Hp & _ & Hmap & _).
    assert (p = image_filepath) by congruence. subst p.
    rewrite Hmap. unfold after_resolution.
    unfold stored_prior in Hset. rewrite Hset. reflexivity.
  - apply ProcessImage_trace in Hrun as (p & l & Hp & Hgrow & _ & Hall & _).
    assert (p = image_filepath) by congruence. subst p.
    rewrite (grows_new_events _ _ _ Hgrow). clear Hgrow.
    induction Hall as [|e l He _ IH]; [constructor|].
    unfold registrations_in. cbn [flat_map]. apply Forall_app.
    split; [|exact IH].
    destruct e; cbn in He |- *; try constructor; [|constructor].
    destruct He as [_ ->]. apply resolved_prior_of_calibrated. exact Hset.
Qed.

(** X14: with [only_calibrated_views], a task for an image without a stored
    or EXIF focal length completes, stores the prior read from EXIF in the
    shared map, and neither extracts nor registers anything. *)
Theorem policy_excludes_uncalibrated i s image_filepath read :
  image_filepaths_ s !! i = Some image_filepath ->
  only_calibrated_views options_ = true ->
  is_set (focal_length (stored_prior s image_filepath)) = false ->
  ExtractEXIFMetadata image_filepath (stored_prior s image_filepath)
  = (true, read) ->
  is_set (focal_length read) = false ->
  exists s',
    ProcessImage options_ i s = Ok (tt, s') /\
    matcher_ s' = matcher_ s /\
    intrinsics_ s' = <[image_filepath := read]> (intrinsics_ s) /\
    registrations_in (new_events s s') = [] /\
    extractions_in (new_events s s') = [].
Proof.
  intros Hpath Honly Hstored Hexif Hread.
  unfold stored_prior in *.
  unfold ProcessImage, mbind at 1, get. rewrite Hpath.
  unfold mbind at 1.
  rewrite resolve_calibration_ok by (rewrite Hexif; reflexivity).
  unfold resolved_prior, after_resolution, resolved_prior,
    heuristic_focal_length.
  rewrite Hstored, Hexif, Honly. cbn [snd negb andb].
  rewrite Hread. cbn [negb andb]. unfold emit.
  eexists. split; [reflexivity|]. cbn [matcher_ intrinsics_ events].
  split; [reflexivity|]. split; [reflexivity|].
  unfold new_events. cbn [events]. rewrite <- app_assoc, drop_app_length.
  split; reflexivity.
Qed.

(** X15: without [only_calibrated_views], a completed task for an image
    with neither a stored nor an EXIF focal length leaves in the shared map
    the prior read from EXIF with its focal length set to [1.2] times the
    larger image dimension. *)
Theorem heuristic_fallback_value i s u s' image_filepath read :
  image_filepaths_ s !! i = Some image_filepath ->
  only_calibrated_views options_ = false ->
  is_set (focal_length (stored_prior s image_filepath)) = false ->
  snd (ExtractEXIFMetadata image_filepath (stored_prior s image_filepath))
  = read ->
  is_set (focal_length read) = false ->
  length (value (focal_length read)) = 1%nat ->
  ProcessImage options_ i s = Ok (u, s') ->
  intrinsics_ s' !! image_filepath =
  Some (with_focal_length
          (mkPrior true
             [(kFocalLengthScale *
               double_of_int (Z.max (image_width read) (image_height read)))
              %float])
          read).
Proof.
  intros Hpath Honly Hstored Hexif Hread Hlen Hrun.
  apply ProcessImage_effect in Hrun as (p & Hp & _ & Hmap & _).
  assert (p = image_filepath) by congruence. subst p.
  rewrite Hmap. unfold stored_prior in *.
  unfold after_resolution, resolved_prior, heuristic_focal_length.
  rewrite Hstored, Hexif, Honly, Hread. cbn [negb andb intrinsics_].
  rewrite lookup_insert_eq. do 3 f_equal.
  destruct (value (focal_length read)) as [|v [|]]; try discriminate Hlen.
  reflexivity.
Qed.

(** ** Fatal tasks *)

Lemma after_resolution_masks image_filepath stored s :
  image_masks_ (after_resolution options_ image_filepath stored s) =
  image_masks_ s.
Proof. unfold after_resolution. destruct (is_set _); reflexivity. Qed.

Lemma ProcessImage_same_input i s u s' image_filepath other s0 :
  ProcessImage options_ i s = Ok (u, s') ->
  image_filepaths_ s !! i = Some image_filepath ->
  other <> image_filepath ->
  same_input other s0 s -> same_input other s0 s'.
Proof.
  intros Hrun Hpath Hne [Hmap Hmasks]. split.
  - rewrite <- Hmap. eapply ProcessImage_other; eassumption.
  - apply ProcessImage_effect in Hrun as (p & _ & _ & _ & Hm).
    rewrite Hm, after_resolution_masks. exact Hmasks.
Qed.

Lemma doomed_task_stops_submission s0 doomed (image_filepaths : list string) :
  FileExists doomed = true ->
  (forall i s, image_filepaths_ s !! i = Some doomed ->
               same_input doomed s0 s ->
               forall r, ProcessImage options_ i s <> Ok r) ->
  forall i s,
    drop i (image_filepaths_ s) = image_filepaths ->
    doomed ∈ image_filepaths ->
    same_input doomed s0 s ->
    forall r, submit_all options_ i image_filepaths s <> Ok r.
Proof.
  intros Hfile Hdoomed.
  induction image_filepaths as [|image_filepath rest IH];
    intros i s Hdrop Hin Hsame r Hrun.
  - inversion Hin.
  - apply drop_cons_inv in Hdrop as [Hpath Hrest].
    cbn [submit_all] in Hrun. bind_cases Hrun.
    destruct (decide (image_filepath = doomed)) as [->|Hne].
    + rewrite Hfile in Hstep. cbn [negb] in Hstep.
      eapply Hdoomed; eassumption.
    + apply elem_of_cons in Hin as [Heq|Hin]; [congruence|].
      destruct (FileExists image_filepath); cbn [negb] in Hstep.
      * eapply IH; [| |
          eapply ProcessImage_same_input; [exact Hstep|exact Hpath| |exact Hsame]
          |exact Hrun]; [|exact Hin|congruence].
        rewrite (ProcessImage_paths _ _ _ _ _ Hstep). exact Hrest.
      * apply emit_kept in Hstep as (Hpaths & Hmap & Hmasks).
        eapply IH; [| | |exact Hrun]; [rewrite Hpaths; exact Hrest|exact Hin|].
        destruct Hsame as [Hs1 Hs2]. split; congruence.
Qed.

(** A submitted image whose task cannot complete takes the whole run down.
    The task is judged on what it reads: the stored prior and the mask. *)
Lemma doomed_task_stops_run s0 doomed :
  doomed ∈ image_filepaths_ s0 ->
  FileExists doomed = true ->
  (forall i s, image_filepaths_ s !! i = Some doomed ->
               same_input doomed s0 s ->
               forall r, ProcessImage options_ i s <> Ok r) ->
  forall r, ExtractAndMatchFeatures options_ s0 <> Ok r.
Proof.
  intros Hin Hfile Hdoomed r Hrun.
  unfold ExtractAndMatchFeatures, mbind at 1, get in Hrun.
  bind_cases Hrun.
  eapply (doomed_task_stops_submission s0 doomed); try eassumption;
    [reflexivity|split; reflexivity].
Qed.

(** X16: when the EXIF reader fails on a registered image that has a file
    and no stored focal length, [ExtractAndMatchFeatures] never returns. *)
Theorem exif_failure_aborts_run s doomed :
  doomed ∈ image_filepaths_ s ->
  FileExists doomed = true ->
  is_set (focal_length (stored_prior s doomed)) = false ->
  fst (ExtractEXIFMetadata doomed (stored_prior s doomed)) = false ->
  forall r, ExtractAndMatchFeatures options_ s <> Ok r.
Proof.
  intros Hin Hfile Hstored Hexif.
  apply (doomed_task_stops_run s doomed Hin Hfile).
  intros i s1 Hpath Hsame r Hrun.
  apply stored_prior_same_input in Hsame. unfold stored_prior in *.
  unfold ProcessImage, mbind at 1, get in Hrun. rewrite Hpath in Hrun.
  unfold mbind at 1, resolve_calibration in Hrun.
  rewrite Hsame, Hstored in Hrun. cbn [negb] in Hrun.
  destruct (ExtractEXIFMetadata doomed _) as [ok read].
  cbn in Hexif. subst ok. discriminate Hrun.
Qed.

(** X17: when a registered image that is extracted (it has a file, passes
    the policy test, is not served from the cache and the extractor succeeds
    on it) has a mask of another width or height, [ExtractAndMatchFeatures]
    never returns. *)
Theorem mask_mismatch_aborts_run s doomed mask_filepath image_filename :
  doomed ∈ image_filepaths_ s ->
  FileExists doomed = true ->
  image_masks_ s !! doomed = Some mask_filepath ->
  mask_filepath <> EmptyString ->
  (Width (read_image mask_filepath) <> Width (read_image doomed) \/
   Height (read_image mask_filepath) <> Height (read_image doomed)) ->
  excluded_by_policy options_
    (resolved_prior options_ doomed (stored_prior s doomed)) = false ->
  GetFilenameFromFilepath doomed true = Some image_filename ->
  cache_hit options_ image_filename = false ->
  fst (fst (DetectAndExtractDescriptors (descriptor_extractor_type options_)
              (feature_density options_) (read_image doomed) [] [])) = true ->
  forall r, ExtractAndMatchFeatures options_ s <> Ok r.
Proof.
  intros Hin Hfile Hmask Hnonempty Hdims Hpolicy Hname Hcache Hdet.
  apply (doomed_task_stops_run s doomed Hin Hfile).
  intros i s1 Hpath Hsame r Hrun.
  pose proof (stored_prior_same_input _ _ _ Hsame) as Hstored.
  destruct Hsame as [_ Hmasks]. unfold stored_prior in *.
  unfold ProcessImage, mbind at 1, get in Hrun. rewrite Hpath in Hrun.
  bind_cases Hrun. apply resolve_calibration_inv in Hstep as [-> ->].
  rewrite Hstored in Hrun.
  unfold excluded_by_policy in Hpolicy. unfold cache_hit in Hcache.
  rewrite Hpolicy in Hrun. bind_cases Hrun.
  rewrite Hname, Hcache in Hrun. bind_cases Hrun.
  clear Hrun. unfold FindWithDefault in Hstep0.
  rewrite Hmasks, Hmask in Hstep0. cbn [default from_option id] in Hstep0.
  unfold ExtractFeatures in Hstep0.
  destruct (DetectAndExtractDescriptors _ _ _ _ _) as [[ok kps] descs].
  cbn in Hdet. subst ok. bind_cases Hstep0. cbn [negb] in Hstep0.
  bind_cases Hstep0. clear Hstep0.
  destruct mask_filepath as [|c rest]; [congruence|].
  cbn [String.length Nat.ltb Nat.leb] in Hstep2.
  bind_cases Hstep2. clear Hstep2.
  unfold CHECK in Hstep0.
  destruct (Z.eqb_spec (Width (read_image (String c rest)))
                       (Width (read_image doomed))) as [Hw|Hw];
    destruct (Z.eqb_spec (Height (read_image (String c rest)))
                         (Height (read_image doomed))) as [Hh|Hh];
    cbn [andb] in Hstep0; try discriminate Hstep0.
  tauto.
Qed.

(** ** Extraction *)

Lemma ExtractFeatures_without_mask image_filepath keypoints0 descriptors0
    keypoints descriptors s :
  DetectAndExtractDescriptors (descriptor_extractor_type options_)
    (feature_density options_) (read_image image_filepath)
    keypoints0 descriptors0
  = (true, keypoints, descriptors) ->
  length keypoints = length descriptors ->
  0 <= max_num_features options_ < 2 ^ 31 ->
  exists s',
    ExtractFeatures options_ image_filepath "" keypoints0 descriptors0 s
    = Ok (take (Z.to_nat (max_num_features options_)) keypoints,
          take (Z.to_nat (max_num_features options_)) descriptors, s').
Proof.
  intros Hdet Hlen Hcap.
  unfold ExtractFeatures. rewrite Hdet.
  unfold mbind, emit, mret. cbn [negb String.length Nat.ltb Nat.leb].
  unfold to_size_t. rewrite Z.mod_small by lia.
  destruct (Z.gtb_spec (Z.of_nat (length keypoints))
                       (max_num_features options_)).
  - rewrite (resize_take _ _ keypoints), (resize_take _ _ descriptors) by lia.
    eexists. reflexivity.
  - rewrite (take_ge keypoints), (take_ge descriptors) by lia.
    eexists. reflexivity.
Qed.

(** X18: without a mask and with a configured maximum [N] that is not
    negative, a successful extraction that yields as many descriptors as
    keypoints returns the first [N] detected keypoints and descriptors, and
    all of them when there are no more than [N]. *)
Theorem features_without_mask image_filepath keypoints0 descriptors0
    keypoints descriptors s :
  let N := Z.to_nat (max_num_features options_) in
  DetectAndExtractDescriptors (descriptor_extractor_type options_)
    (feature_density options_) (read_image image_filepath)
    keypoints0 descriptors0
  = (true, keypoints, descriptors) ->
  length keypoints = length descriptors ->
  0 <= max_num_features options_ < 2 ^ 31 ->
  exists s',
    ExtractFeatures options_ image_filepath "" keypoints0 descriptors0 s
    = Ok (take N keypoints, take N descriptors, s') /\
    ((length keypoints <= N)%nat ->
     take N keypoints = keypoints /\ take N descriptors = descriptors).
Proof.
  intros N Hdet Hlen Hcap.
  destruct (ExtractFeatures_without_mask image_filepath keypoints0
              descriptors0 keypoints descriptors s Hdet Hlen Hcap)
    as [s' Hrun].
  exists s'. split; [exact Hrun|].
  intros Hle. split; apply take_ge; lia.
Qed.

(** X19: whatever the mask, when the configured maximum is not negative,
    the features returned after a successful extraction that yields as many
    descriptors as keypoints are as many keypoints as descriptors, no more
    than the configured maximum, and are detected keypoint and descriptor
    pairs in detection order. *)
Theorem extracted_features_capped_and_paired image_filepath imagemask_filepath
    keypoints0 descriptors0 keypoints descriptors s keypoints' descriptors' s' :
  DetectAndExtractDescriptors (descriptor_extractor_type options_)
    (feature_density options_) (read_image image_filepath)
    keypoints0 descriptors0
  = (true, keypoints, descriptors) ->
  length keypoints = length descriptors ->
  0 <= max_num_features options_ < 2 ^ 31 ->
  ExtractFeatures options_ image_filepath imagemask_filepath
                  keypoints0 descriptors0 s
  = Ok (keypoints', descriptors', s') ->
  length keypoints' = length descriptors' /\
  Z.of_nat (length keypoints') <= max_num_features options_ /\
  sublist (zip keypoints' descriptors') (zip keypoints descriptors).
Proof.
  intros Hdet Hlen Hcap Hrun.
  assert (Hfrom : exists kept,
             sublist kept (zip keypoints descriptors) /\
             keypoints' = (take (Z.to_nat (max_num_features options_)) kept).*1 /\
             descriptors' = (take (Z.to_nat (max_num_features options_)) kept).*2).
  { destruct imagemask_filepath as [|c rest].
    - destruct (ExtractFeatures_without_mask image_filepath keypoints0
                  descriptors0 keypoints descriptors s Hdet Hlen Hcap)
        as [s1 Hs1].
      rewrite Hs1 in Hrun. injection Hrun as <- <- _.
      exists (zip keypoints descriptors). split; [reflexivity|].
      rewrite !fmap_take, fst_zip, snd_zip by lia. split; reflexivity.
    - unfold ExtractFeatures in Hrun. rewrite Hdet in Hrun.
      bind_cases Hrun. cbn [negb] in Hrun. bind_cases Hrun.
      cbn [String.length Nat.ltb Nat.leb] in Hstep0.
      bind_cases Hstep0. clear Hstep1.
      rewrite mask_loop_filters in Hstep0 by (assumption || lia).
      rewrite take_ge, drop_ge, app_nil_r in Hstep0
        by (rewrite ?length_zip_with; lia).
      unfold lift in Hstep0. injection Hstep0 as <- _.
      exists (survivors (ConvertToGrayscaleImage (read_image (String c rest)))
                        (zip keypoints descriptors)).
      split; [apply survivors_sublist|].
      revert Hrun. unfold to_size_t. rewrite Z.mod_small by lia.
      rewrite !length_fmap.
      match goal with
      | |- context [?a >? ?b] => destruct (Z.gtb_spec a b)
      end; intros Hrun; bind_cases Hrun; injection Hrun as <- <- _.
      + rewrite !resize_take by (rewrite length_fmap; lia).
        rewrite !fmap_take. split; reflexivity.
      + rewrite take_ge by lia. split; reflexivity. }
  destruct Hfrom as (kept & Hsub & -> & ->).
  rewrite !length_fmap. split; [reflexivity|].
  split; [rewrite length_take; lia|].
  rewrite zip_fst_snd. etrans; [apply sublist_take|exact Hsub].
Qed.

(** ** Pairs to match *)

Lemma convert_pairs_spec (pairs_to_match : list (string * string)) :
  forall image_pairs,
    (Forall (fun p => is_Some (GetFilenameFromFilepath (fst p) true) /\
                      is_Some (GetFilenameFromFilepath (snd p) true))
            pairs_to_match ->
     exists converted,
       convert_pairs pairs_to_match image_pairs = Ok (image_pairs ++ converted) /\
       Forall2 (fun p q =>
                  GetFilenameFromFilepath (fst p) true = Some (fst q) /\
                  GetFilenameFromFilepath (snd p) true = Some (snd q))
               pairs_to_match converted) /\
    (forall r, convert_pairs pairs_to_match image_pairs = Ok r ->
       Forall (fun p => is_Some (GetFilenameFromFilepath (fst p) true) /\
                        is_Some (GetFilenameFromFilepath (snd p) true))
              pairs_to_match).
Proof.
  induction pairs_to_match as [|[p1 p2] rest IH]; intros image_pairs.
  - split.
    + intros _. exists []. rewrite app_nil_r. split; [reflexivity|constructor].
    + intros r _. constructor.
  - cbn [convert_pairs fst snd]. split.
    + intros Hall. apply Forall_cons in Hall as [[[n1 H1] [n2 H2]] Hrest].
      cbn [fst snd] in H1, H2. rewrite H1, H2.
      destruct (proj1 (IH (image_pairs ++ [(n1, n2)])) Hrest)
        as (converted & Hrun & Hconv).
      exists ((n1, n2) :: converted). rewrite Hrun, <- app_assoc.
      split; [reflexivity|]. constructor; [split; assumption|exact Hconv].
    + intros r Hrun.
      destruct (GetFilenameFromFilepath p1 true) as [n1|] eqn:H1;
        [|discriminate Hrun].
      destruct (GetFilenameFromFilepath p2 true) as [n2|] eqn:H2;
        [|discriminate Hrun].
      constructor; [split; cbn; eauto|].
      eapply IH. exact Hrun.
Qed.

(** X20: [SetPairsToMatch] reaches the matcher exactly when the file name of
    every path of every pair can be derived (otherwise a [CHECK] fails), and
    then hands over the pairs of file names, as many and in the same order. *)
Theorem pairs_to_match_are_file_names (pairs_to_match : list (string * string)) :
  let derivable :=
    Forall (fun p => is_Some (GetFilenameFromFilepath (fst p) true) /\
                     is_Some (GetFilenameFromFilepath (snd p) true))
           pairs_to_match in
  (derivable <-> exists image_pairs, SetPairsToMatch pairs_to_match = Ok image_pairs) /\
  (forall image_pairs,
     SetPairsToMatch pairs_to_match = Ok image_pairs ->
     Forall2 (fun p q =>
                GetFilenameFromFilepath (fst p) true = Some (fst q) /\
                GetFilenameFromFilepath (snd p) true = Some (snd q))
             pairs_to_match image_pairs).
Proof.
  cbn zeta. unfold SetPairsToMatch.
  destruct (convert_pairs_spec pairs_to_match []) as [Hok Hinv].
  split; [split|].
  - intros Hall. destruct (Hok Hall) as (converted & Hrun & _).
    eexists. exact Hrun.
  - intros [image_pairs Hrun]. eapply Hinv. exact Hrun.
  - intros image_pairs Hrun.
    destruct (Hok (Hinv _ Hrun)) as (converted & Hrun' & Hconv).
    rewrite Hrun in Hrun'. injection Hrun' as ->. exact Hconv.
Qed.

End PipelineExtras.

(** * Properties of the fisheye camera model *)
Section FisheyeProperties.
Import Fisheye.

Lemma SetParameter_same index value c :
  parameters_ (SetParameter index value c) index = value.
Proof. cbn. rewrite decide_True by reflexivity. reflexivity. Qed.

Lemma SetParameter_other index value c j :
  j <> index -> parameters_ (SetParameter index value c) j = parameters_ c j.
Proof. intros Hne. cbn. rewrite decide_False by exact Hne. reflexivity. Qed.

(** X21: setting a fisheye camera from the prior read back from another
    fisheye camera reproduces every parameter of that camera, whatever the
    parameters of the target were. *)
Theorem fisheye_round_trip c c' index :
  parameters_
    (SetFromCameraIntrinsicsPriors (CameraIntrinsicsPriorFromIntrinsics c) c')
    index
  = parameters_ c index.
Proof.
  unfold SetFromCameraIntrinsicsPriors, CameraIntrinsicsPriorFromIntrinsics.
  cbn [is_set focal_length principal_point aspect_ratio skew radial_distortion
       set_values].
  destruct index; reflexivity.
Qed.

(** X22: the prior read back from a fisheye camera that was set from a prior
    has all five fields set, carries the values of every field the original
    prior had set, and has no image dimensions. *)
Theorem fisheye_prior_survives_camera prior c :
  let back :=
    CameraIntrinsicsPriorFromIntrinsics (SetFromCameraIntrinsicsPriors prior c) in
  (is_set (focal_length back) = true /\
   is_set (principal_point back) = true /\
   is_set (aspect_ratio back) = true /\
   is_set (skew back) = true /\
   is_set (radial_distortion back) = true) /\
  (image_width back = 0 /\ image_height back = 0) /\
  (is_set (focal_length prior) = true ->
   value_at (focal_length back) 0 = value_at (focal_length prior) 0) /\
  (is_set (principal_point prior) = true ->
   value_at (principal_point back) 0 = value_at (principal_point prior) 0 /\
   value_at (principal_point back) 1 = value_at (principal_point prior) 1) /\
  (is_set (aspect_ratio prior) = true ->
   value_at (aspect_ratio back) 0 = value_at (aspect_ratio prior) 0) /\
  (is_set (skew prior) = true ->
   value_at (skew back) 0 = value_at (skew prior) 0) /\
  (is_set (radial_distortion prior) = true ->
   forall i, (i < 4)%nat ->
     value_at (radial_distortion back) i =
     value_at (radial_distortion prior) i).
Proof.
  cbn zeta. split; [repeat split|]. split; [split; reflexivity|].
  unfold SetFromCameraIntrinsicsPriors.
  destruct (is_set (focal_length prior)), (is_set (principal_point prior)),
    (is_set (aspect_ratio prior)), (is_set (skew prior)),
    (is_set (radial_distortion prior)), (dimensions_known prior);
    repeat split; intros; try discriminate; try reflexivity;
    match goal with
    | Hi : (?i < 4)%nat |- _ =>
        destruct i as [|[|[|[|]]]]; [reflexivity..|lia]
    end.
Qed.

(** X23: a field the prior does not set leaves its parameters as they were,
    except that with both image dimensions known an unset focal length
    becomes [0.4] times the larger dimension and an unset principal point the
    image centre. *)
Theorem fisheye_unset_fields_keep_parameters prior c :
  let c' := SetFromCameraIntrinsicsPriors prior c in
  (is_set (focal_length prior) = false ->
   FocalLength c' =
     if dimensions_known prior
     then (kFocalLengthScaleFactor *
           double_of_int (Z.max (image_width prior) (image_height prior)))%float
     else FocalLength c) /\
  (is_set (principal_point prior) = false ->
   (PrincipalPointX c', PrincipalPointY c') =
     if dimensions_known prior
     then ((double_of_int (image_width prior) / 2)%float,
           (double_of_int (image_height prior) / 2)%float)
     else (PrincipalPointX c, PrincipalPointY c)) /\
  (is_set (aspect_ratio prior) = false -> AspectRatio c' = AspectRatio c) /\
  (is_set (skew prior) = false -> Skew c' = Skew c) /\
  (is_set (radial_distortion prior) = false ->
   RadialDistortion1 c' = RadialDistortion1 c /\
   RadialDistortion2 c' = RadialDistortion2 c /\
   RadialDistortion3 c' = RadialDistortion3 c /\
   RadialDistortion4 c' = RadialDistortion4 c).
Proof.
  cbn zeta. unfold SetFromCameraIntrinsicsPriors.
  destruct (is_set (focal_length prior)), (is_set (principal_point prior)),
    (is_set (aspect_ratio prior)), (is_set (skew prior)),
    (is_set (radial_distortion prior)), (dimensions_known prior);
    repeat split; intros; try discriminate; reflexivity.
Qed.

End FisheyeProperties.

(** ** More runs on concrete inputs *)
Section ExtraRuns.
Import Pipeline PipelineReadings Examples MoreExamples.
Local Open Scope string_scope.

(** Two inliers, the first and the last correspondence: each pyramid of the
    counting model receives two points. *)
Lemma visibility_score_two_inliers :
  TwoView.dimensions_unknown calibrated_prior calibrated_prior = false /\
  @TwoView.ComputeVisibilityScoreOfInliers counting_pyramid calibrated_prior
    calibrated_prior correspondences0 [0; 2] = Some 4.
Proof.
  split; [reflexivity|].
  destruct (@visibility_score_inserts_every_inlier counting_pyramid
              calibrated_prior calibrated_prior correspondences0 [0; 2]
              eq_refl) as [_ ->].
  - repeat constructor; unfold TwoViewReadings.in_bounds; cbn; lia.
  - reflexivity.
Defined.

(** Both focal lengths are 1024 and both principal points (1024, 512). *)
Lemma calibrated_normalization_run :
  TwoView.both_calibrated calibrated_prior calibrated_prior = true /\
  exists o,
    @TwoView.EstimateTwoViewInfo pinhole counting_pyramid succeeding_solvers
      options0 calibrated_prior calibrated_prior [corr 0 0 2048 1024]
      untouched [] = Some o /\
    flat_map TwoView.solver_inputs (TwoView.trace o) = [[corr (-1) (-0.5) 1 0.5]].
Proof.
  split; [reflexivity|].
  destruct (@calibrated_normalization_keeps_cameras pinhole counting_pyramid
              succeeding_solvers options0 calibrated_prior calibrated_prior
              [corr 0 0 2048 1024] untouched [] eq_refl)
    as (o & normalized & Ho & Hin & -> & _).
  exists o. split; [exact Ho|]. rewrite Hin. vm_compute. reflexivity.
Defined.

(** The run on the two images returns two priors, both with the heuristic
    focal length of a 640 by 480 image. *)
Lemma output_aligned_run :
  exists priors matches s',
    @ExtractAndMatchFeatures (env_of disk0) (pipeline_options false false 100)
      two_images = Ok (priors, matches, s') /\
    length priors = 2%nat /\
    exists prior,
      priors !! 1%nat = Some prior /\
      intrinsics_ s' !! "img/b.jpg" = Some prior.
Proof.
  destruct (@ExtractAndMatchFeatures (env_of disk0)
              (pipeline_options false false 100) two_images)
    as [[[priors matches] s']| |] eqn:Hrun;
    try (vm_compute in Hrun; discriminate Hrun).
  exists priors, matches, s'. split; [reflexivity|].
  destruct (@output_aligned_with_registration (env_of disk0)
              (pipeline_options false false 100) two_images priors matches s'
              Hrun) as (_ & Hlen & Hall).
  split; [exact Hlen|]. apply (Hall 1%nat). reflexivity.
Defined.

(** The image without a file was registered with a prior: the run completes
    and returns that prior at the second position. *)
Lemma missing_file_with_prior_run :
  exists priors matches s',
    @ExtractAndMatchFeatures (env_of disk0) (pipeline_options false false 100)
      missing_with_prior = Ok (priors, matches, s') /\
    priors !! 1%nat = Some calibrated_prior /\
    "img/c.jpg" ∉ extractions_in (new_events missing_with_prior s').
Proof.
  destruct (@ExtractAndMatchFeatures (env_of disk0)
              (pipeline_options false false 100) missing_with_prior)
    as [[[priors matches] s']| |] eqn:Hrun;
    try (vm_compute in Hrun; discriminate Hrun).
  exists priors, matches, s'. split; [reflexivity|].
  destruct (@missing_file_keeps_registered_prior (env_of disk0)
              (pipeline_options false false 100) missing_with_prior
              priors matches s' 1%nat "img/c.jpg" Hrun eq_refl eq_refl)
    as (prior & Hprior & Hp & Hnot).
  split; [|exact Hnot].
  rewrite Hp. rewrite <- Hprior. reflexivity.
Defined.

(** The task of the first image takes both locks, one after the other, and
    extracts in between. *)
Lemma task_lock_discipline_run :
  exists s',
    @ProcessImage (env_of disk0) (pipeline_options false false 100) 0 two_images
    = Ok (tt, s') /\
    disciplined (new_events two_images s') /\
    List.filter (fun e => negb (is_extraction e))
                (firstn 6 (new_events two_images s')) =
    [Lock intrinsics_mutex_; Unlock intrinsics_mutex_;
     Log "is initialized with the focal length" "img/a.jpg";
     Log "Successfully extracted features with an image mask from image"
         "img/a.jpg";
     Lock matcher_mutex_].
Proof.
  destruct (@ProcessImage (env_of disk0) (pipeline_options false false 100) 0
              two_images) as [[[] s']| |] eqn:Hrun;
    try (vm_compute in Hrun; discriminate Hrun).
  exists s'. split; [reflexivity|].
  destruct (@task_keeps_lock_discipline (env_of disk0)
              (pipeline_options false false 100) 0%nat two_images tt s' Hrun)
    as [Hlock _].
  split; [exact Hlock|].
  vm_compute in Hrun. injection Hrun as <-. reflexivity.
Defined.

Lemma matching_last_run :
  exists priors matches s' l,
    @ExtractAndMatchFeatures (env_of disk0) (pipeline_options false true 100)
      two_images = Ok (priors, matches, s') /\
    new_events two_images s' = (l ++ [CallMatchImages])%list /\
    existsb is_matching l = false /\
    matches = [("a.jpg", "b.jpg")].
Proof.
  destruct (@ExtractAndMatchFeatures (env_of disk0)
              (pipeline_options false true 100) two_images)
    as [[[priors matches] s']| |] eqn:Hrun;
    try (vm_compute in Hrun; discriminate Hrun).
  destruct (@matching_starts_after_all_tasks (env_of disk0)
              (pipeline_options false true 100) two_images priors matches s'
              Hrun) as (l & Hl & Hnone & _ & _).
  exists priors, matches, s', l. split; [reflexivity|].
  split; [exact Hl|]. split; [exact Hnone|].
  vm_compute in Hrun. injection Hrun as _ <- _. reflexivity.
Defined.

(** Two submitted images: each is extracted from once and registered
    once. *)
Lemma existing_images_run :
  exists priors matches s',
    @ExtractAndMatchFeatures (env_of disk0) (pipeline_options false false 100)
      two_images = Ok (priors, matches, s') /\
    extractions_in (new_events two_images s') ⊆+ ["img/a.jpg"; "img/b.jpg"] /\
    @one_per_image (env_of disk0) ["img/a.jpg"; "img/b.jpg"]
      (registrations_in (new_events two_images s')) /\
    extractions_in (new_events two_images s') = ["img/a.jpg"; "img/b.jpg"] /\
    map registered_name (registrations_in (new_events two_images s')) =
    ["a.jpg"; "b.jpg"].
Proof.
  destruct (@ExtractAndMatchFeatures (env_of disk0)
              (pipeline_options false false 100) two_images)
    as [[[priors matches] s']| |] eqn:Hrun;
    try (vm_compute in Hrun; discriminate Hrun).
  exists priors, matches, s'. split; [reflexivity|].
  destruct (@only_existing_images_reach_collaborators (env_of disk0)
              (pipeline_options false false 100) two_images
              priors matches s' Hrun) as (_ & _ & _ & _ & Hsub & Hone).
  split; [exact Hsub|]. split; [exact Hone|].
  vm_compute in Hrun. injection Hrun as _ _ <-. split; reflexivity.
Defined.

(** With an EXIF reader that fails on every image, the task of an image
    registered with a focal length still completes, and leaves the map as it
    is. *)
Lemma caller_focal_length_run :
  exists s',
    @ProcessImage (@with_exif_reader (env_of disk0)
                     (fun _ prior => (false, prior)))
      (pipeline_options false false 100) 0 one_calibrated = Ok (tt, s') /\
    intrinsics_ s' = intrinsics_ one_calibrated /\
    Forall (fun r => registered_prior r = calibrated_prior)
           (registrations_in (new_events one_calibrated s')).
Proof.
  destruct (@caller_focal_length_is_kept (env_of disk0)
              (pipeline_options false false 100) 0%nat one_calibrated
              "img/a.jpg" (fun _ prior => (false, prior)) eq_refl eq_refl)
    as [Hsame Hkept].
  destruct (@ProcessImage (env_of disk0) (pipeline_options false false 100) 0
              one_calibrated) as [[[] s']| |] eqn:Hrun;
    try (vm_compute in Hrun; discriminate Hrun).
  exists s'. split; [exact Hsame|].
  exact (Hkept tt s' eq_refl).
Defined.

Lemma policy_run :
  exists s',
    @ProcessImage (env_of disk0) (pipeline_options true false 100) 0 two_images
    = Ok (tt, s') /\
    matcher_ s' = [] /\
    extractions_in (new_events two_images s') = [].
Proof.
  destruct (@policy_excludes_uncalibrated (env_of disk0)
              (pipeline_options true false 100) 0%nat two_images "img/a.jpg"
              (snd (exif_of disk0 "img/a.jpg" default_prior))
              eq_refl eq_refl eq_refl eq_refl eq_refl)
    as (s' & Hrun & Hmatcher & _ & _ & Hext).
  exists s'. split; [exact Hrun|]. split; [exact Hmatcher|exact Hext].
Defined.

(** A 640 by 480 image without any focal length gets 1.2 * 640 = 768. *)
Lemma heuristic_run :
  exists s' prior,
    @ProcessImage (env_of disk0) (pipeline_options false false 100) 1 two_images
    = Ok (tt, s') /\
    intrinsics_ s' !! "img/b.jpg" = Some prior /\
    focal_length prior = focal 768.
Proof.
  destruct (@ProcessImage (env_of disk0) (pipeline_options false false 100) 1
              two_images) as [[[] s']| |] eqn:Hrun;
    try (vm_compute in Hrun; discriminate Hrun).
  exists s'. eexists. split; [reflexivity|].
  split.
  - exact (@heuristic_fallback_value (env_of disk0)
             (pipeline_options false false 100) 1%nat two_images tt s'
             "img/b.jpg" _ eq_refl eq_refl eq_refl eq_refl eq_refl eq_refl Hrun).
  - vm_compute. reflexivity.
Defined.

(** The EXIF reader fails on the first image: the run stops in its task. *)
Lemma exif_failure_run :
  @ExtractAndMatchFeatures (failing_exif_env disk0)
    (pipeline_options false false 100) two_images
  = Fatal "ExtractEXIFMetadata" /\
  forall r,
    @ExtractAndMatchFeatures (failing_exif_env disk0)
      (pipeline_options false false 100) two_images <> Ok r.
Proof.
  split; [vm_compute; reflexivity|].
  apply (@exif_failure_aborts_run (failing_exif_env disk0)
           (pipeline_options false false 100) two_images "img/a.jpg").
  - apply list_elem_of_here.
  - reflexivity.
  - reflexivity.
  - reflexivity.
Defined.

(** The mask of the first image is 320 by 240, the image 640 by 480. *)
Lemma mask_mismatch_run :
  @ExtractAndMatchFeatures (small_mask_env disk0)
    (pipeline_options false false 100) two_images
  = Fatal "The image and the mask don't have the same size." /\
  forall r,
    @ExtractAndMatchFeatures (small_mask_env disk0)
      (pipeline_options false false 100) two_images <> Ok r.
Proof.
  split; [vm_compute; reflexivity|].
  apply (@mask_mismatch_aborts_run (small_mask_env disk0)
           (pipeline_options false false 100) two_images "img/a.jpg"
           "mask/a.png" "a.jpg").
  - apply list_elem_of_here.
  - reflexivity.
  - reflexivity.
  - discriminate.
  - left. discriminate.
  - reflexivity.
  - reflexivity.
  - reflexivity.
  - reflexivity.
Defined.

Lemma features_without_mask_run :
  exists s',
    @ExtractFeatures (env_of disk0) (pipeline_options false false 3)
      "img/a.jpg" "" [] [] two_images
    = Ok ([mkKeypoint 10 10; mkKeypoint 400 20; mkKeypoint 100 300],
          [[1%float]; [2%float]; [3%float]], s').
Proof.
  destruct (@features_without_mask (env_of disk0)
              (pipeline_options false false 3) "img/a.jpg" [] []
              four_features.*1 four_features.*2 two_images)
    as (s' & Hrun & _); try reflexivity.
  - split; [discriminate|reflexivity].
  - exists s'. exact Hrun.
Defined.

Lemma capped_and_paired_run :
  exists keypoints descriptors s',
    @ExtractFeatures (env_of disk0) (pipeline_options false false 1)
      "img/a.jpg" "mask/a.png" [] [] two_images
    = Ok (keypoints, descriptors, s') /\
    length keypoints = length descriptors /\
    Z.of_nat (length keypoints) <= 1.
Proof.
  destruct (@ExtractFeatures (env_of disk0) (pipeline_options false false 1)
              "img/a.jpg" "mask/a.png" [] [] two_images)
    as [[[keypoints descriptors] s']| |] eqn:Hrun;
    try (vm_compute in Hrun; discriminate Hrun).
  exists keypoints, descriptors, s'. split; [reflexivity|].
  destruct (@extracted_features_capped_and_paired (env_of disk0)
              (pipeline_options false false 1) "img/a.jpg" "mask/a.png" [] []
              four_features.*1 four_features.*2 two_images keypoints
              descriptors s' eq_refl eq_refl) as (Hlen & Hcap & _).
  - split; [discriminate|reflexivity].
  - exact Hrun.
  - split; [exact Hlen|exact Hcap].
Defined.

End ExtraRuns.
